(** * audio-normalizer: the orchestration logic of [normalize_audio.py] and
  [verify_audio.py], embedded in Rocq.

  Python [str] values are [string]s, [pathlib.Path] values are lists of path
  components, the file system is a tree of directories, the external media
  tool is an oracle of the run-time environment, and [float] values are
  binary64 floats.  Console output is not modelled; the conditions that
  select the lines of the final summaries are. *)

From Stdlib Require Import Ascii String Floats.
From stdpp Require Import gmap strings list sorting.

Local Open Scope Z_scope.
Set Warnings "-register-all".

(** ** Text: the [str] operations the two programs use *)

Module Text.

Definition newline : ascii := "010"%char.
Definition lbrace : ascii := "{"%char.
Definition rbrace : ascii := "}"%char.
Definition quote : ascii := "034"%char.
Definition slash : ascii := "/"%char.
Definition dot : ascii := "."%char.

(** One-character strings, to build texts with. *)
Definition nl : string := String newline "".
Definition dq : string := String quote "".

(** [c in s] for a one-character [c]. *)
Fixpoint contains (c : ascii) (s : string) : bool :=
  match s with
  | EmptyString => false
  | String a s' => Ascii.eqb a c || contains c s'
  end.

(** [s.split(sep)] for a one-character separator: never the empty list. *)
Fixpoint split (sep : ascii) (s : string) : list string :=
  match s with
  | EmptyString => [EmptyString]
  | String a s' =>
      if Ascii.eqb a sep then EmptyString :: split sep s'
      else match split sep s' with
           | [] => [String a EmptyString]
           | l :: ls => String a l :: ls
           end
  end.

(** [sep.join(l)]. *)
Fixpoint join (sep : string) (l : list string) : string :=
  match l with
  | [] => EmptyString
  | x :: xs =>
      match xs with
      | [] => x
      | _ :: _ => x +:+ sep +:+ join sep xs
      end
  end.

(** [s.find(c)]: the first index of [c], or -1. *)
Fixpoint find (c : ascii) (s : string) : Z :=
  match s with
  | EmptyString => -1
  | String a s' =>
      if Ascii.eqb a c then 0
      else let r := find c s' in if r <? 0 then -1 else r + 1
  end.

(** [s.rfind(c)]: the last index of [c], or -1. *)
Fixpoint rfind (c : ascii) (s : string) : Z :=
  match s with
  | EmptyString => -1
  | String a s' =>
      let r := rfind c s' in
      if 0 <=? r then r + 1
      else if Ascii.eqb a c then 0 else -1
  end.

(** A slice bound as Python reads it: a negative bound counts from the end,
    and the result is clamped to [0, len]. *)
Definition clamp (len i : Z) : Z :=
  let i' := if i <? 0 then i + len else i in
  Z.max 0 (Z.min len i').

(** [s[i:j]]. *)
Definition slice (s : string) (i j : Z) : string :=
  let len := Z.of_nat (String.length s) in
  let lo := clamp len i in
  let hi := clamp len j in
  substring (Z.to_nat lo) (Z.to_nat (hi - lo)) s.

(** [s[i:]] and [s[:j]]. *)
Definition slice_from (s : string) (i : Z) : string :=
  slice s i (Z.of_nat (String.length s)).
Definition slice_to (s : string) (j : Z) : string := slice s 0 j.

(** [s.lower()] on ASCII text. *)
Definition lower_char (a : ascii) : ascii :=
  let n := nat_of_ascii a in
  if (65 <=? n)%nat && (n <=? 90)%nat then ascii_of_nat (n + 32) else a.

Fixpoint lower (s : string) : string :=
  match s with
  | EmptyString => EmptyString
  | String a s' => String (lower_char a) (lower s')
  end.

(** [s.endswith(suf)]. *)
Definition endswith (s suf : string) : bool :=
  let n := String.length s in
  let k := String.length suf in
  (k <=? n)%nat && String.eqb (substring (n - k) k s) suf.

(** [sub in s] for a substring [sub]. *)
Fixpoint is_infix (sub s : string) : bool :=
  String.prefix sub s ||
  match s with
  | EmptyString => false
  | String _ s' => is_infix sub s'
  end.

End Text.
Import Text.

(** ** The JSON block of the tool's diagnostic stream

  [analyze_loudness] (normalize_audio.py) and [analyze_file]
  (verify_audio.py) share this line scan. *)

Module Extract.

(** The loop over [enumerate(stderr_lines)], with its [break]. *)
Fixpoint scan_lines (i : nat) (lines : list string)
    (json_start : option nat) (json_data : list string)
    : option nat * list string :=
  match lines with
  | [] => (json_start, json_data)
  | line :: rest =>
      let json_start :=
        if contains lbrace line && bool_decide (json_start = None)
        then Some i else json_start in
      let json_data :=
        if bool_decide (json_start ≠ None) then json_data ++ [line]
        else json_data in
      if contains rbrace line && bool_decide (json_start ≠ None)
      then (json_start, json_data)
      else scan_lines (S i) rest json_start json_data
  end.

(** The text handed to [json.loads], or [None] when [json_data] is empty. *)
Definition extract_json_block (stderr : string) : option string :=
  let stderr_lines := split newline stderr in
  let '(_, json_data) := scan_lines 0 stderr_lines None [] in
  match json_data with
  | [] => None
  | _ :: _ =>
      let json_str := join nl json_data in
      Some (slice json_str (find lbrace json_str) (rfind rbrace json_str + 1))
  end.

(** A blob has a brace pair when some ['{'] is followed, later, by a ['}']. *)
Fixpoint has_brace_pair (s : string) : bool :=
  match s with
  | EmptyString => false
  | String a s' =>
      (Ascii.eqb a lbrace && contains rbrace s') || has_brace_pair s'
  end.

End Extract.
Import Extract.

(** ** Paths: [pathlib.Path] as the list of its components *)

Module Paths.

Abbreviation Path := (list string).

(** [str(p)]. *)
Definition path_str (p : Path) : string := join "/" p.

(** [p / name] for a single component. *)
Definition joinpath (p : Path) (name : string) : Path := p ++ [name].

(** [p.parent] and [p.name]. *)
Definition parent (p : Path) : Path := removelast p.
Definition name (p : Path) : string := List.last p "".

(** [p.relative_to(base)]; [None] stands for its [ValueError]. *)
Fixpoint relative_to (p base : Path) {struct base} : option Path :=
  match base with
  | [] => Some p
  | b :: base' =>
      match p with
      | [] => None
      | c :: p' => if String.eqb c b then relative_to p' base' else None
      end
  end.

(** [PurePath.suffix] of a file name: from the last dot on, unless that dot
    is the first or the last character. *)
Definition suffix (nm : string) : string :=
  let i := rfind dot nm in
  if (0 <? i) && (i <? Z.of_nat (String.length nm) - 1)
  then slice_from nm i else "".

(** [PurePath.stem] of a file name. *)
Definition stem (nm : string) : string :=
  let old_suffix := suffix nm in
  if String.eqb old_suffix "" then nm
  else slice_to nm (- Z.of_nat (String.length old_suffix)).

(** The name that [with_suffix] builds. *)
Definition with_suffix_name (nm suf : string) : string :=
  let old_suffix := suffix nm in
  if String.eqb old_suffix "" then nm +:+ suf
  else slice_to nm (- Z.of_nat (String.length old_suffix)) +:+ suf.

(** [p.with_suffix(suf)]; [None] stands for the [ValueError] of a path with
    an empty name. *)
Definition with_suffix (p : Path) (suf : string) : option Path :=
  if String.eqb (name p) "" then None
  else Some (parent p ++ [with_suffix_name (name p) suf]).

(** [Path(s).name] for a path given as text: the last component that is
    neither empty nor a single dot. *)
Definition str_name (s : string) : string :=
  List.last
    (List.filter (λ c, negb (String.eqb c "") && negb (String.eqb c "."))
       (split slash s)) "".

(** [os.path.basename(s)]. *)
Definition basename (s : string) : string :=
  slice_from s (rfind slash s + 1).

(** The order of [Path] values: component by component, each component as
    a string, a proper prefix first.  This is the order [sorted] uses on a
    list of paths. *)
Fixpoint path_leb (p q : Path) : bool :=
  match p, q with
  | [], _ => true
  | _ :: _, [] => false
  | x :: p', y :: q' =>
      match String.compare x y with
      | Lt => true
      | Gt => false
      | Eq => path_leb p' q'
      end
  end.

Definition path_le (p q : Path) : Prop := Is_true (path_leb p q).

(** The order of the full path strings. *)
Definition str_le (p q : Path) : Prop :=
  Is_true (String.leb (path_str p) (path_str q)).

(** [sorted(l)] on paths.  The order is antisymmetric, so every sorting
    algorithm returns the same list. *)
Definition sorted (l : list Path) : list Path := merge_sort path_le l.

(** The extensions both programs accept. *)
Definition audio_extensions : list string :=
  [".mp3"; ".m4a"; ".mp4"; ".wav"; ".flac"; ".aac"; ".ogg"; ".wma"].

(** [any(file.lower().endswith(ext) for ext in audio_extensions)]. *)
Definition has_audio_extension (file : string) : bool :=
  existsb (λ ext, endswith (lower file) ext) audio_extensions.

End Paths.
Import Paths.

(** ** The file system *)

Module FS.

Inductive node : Type :=
| File
| Dir (entries : list (string * node)).

Definition is_dir (n : node) : bool :=
  match n with Dir _ => true | File => false end.

Fixpoint lookup_entry (nm : string) (es : list (string * node)) : option node :=
  match es with
  | [] => None
  | (k, n) :: es' => if String.eqb k nm then Some n else lookup_entry nm es'
  end.

Fixpoint set_entry (nm : string) (n : node) (es : list (string * node))
    : list (string * node) :=
  match es with
  | [] => [(nm, n)]
  | (k, m) :: es' =>
      if String.eqb k nm then (k, n) :: es' else (k, m) :: set_entry nm n es'
  end.

(** The node a path leads to. *)
Fixpoint fs_lookup (p : Path) (n : node) : option node :=
  match p with
  | [] => Some n
  | c :: p' =>
      match n with
      | File => None
      | Dir es =>
          match lookup_entry c es with
          | Some child => fs_lookup p' child
          | None => None
          end
      end
  end.

(** [p.exists()]. *)
Definition path_exists (p : Path) (n : node) : bool :=
  bool_decide (fs_lookup p n ≠ None).

(** A chain of fresh directories. *)
Fixpoint fresh_dirs (p : Path) : node :=
  match p with
  | [] => Dir []
  | c :: p' => Dir [(c, fresh_dirs p')]
  end.

(** [p.mkdir(parents=True, exist_ok=True)]: existing directories are kept,
    missing ones are created; [None] stands for the [OSError] raised when a
    file is in the way. *)
Fixpoint mkdir_p (p : Path) (n : node) : option node :=
  match n with
  | File => None
  | Dir es =>
      match p with
      | [] => Some n
      | c :: p' =>
          match lookup_entry c es with
          | Some child =>
              match mkdir_p p' child with
              | Some child' => Some (Dir (set_entry c child' es))
              | None => None
              end
          | None => Some (Dir (es ++ [(c, fresh_dirs p')]))
          end
      end
  end.

Definition dirnames (es : list (string * node)) : list string :=
  map fst (List.filter (λ e, is_dir (snd e)) es).
Definition filenames (es : list (string * node)) : list string :=
  map fst (List.filter (λ e, negb (is_dir (snd e))) es).

(** [os.walk] from a directory node, top down: one [(root, dirs, files)]
    triple per directory. *)
Fixpoint walk_node (root : Path) (n : node)
    : list (Path * list string * list string) :=
  match n with
  | File => []
  | Dir es =>
      (root, dirnames es, filenames es) ::
      (fix walk_entries (es : list (string * node)) :=
         match es with
         | [] => []
         | (nm, child) :: es' =>
             walk_node (root ++ [nm]) child ++ walk_entries es'
         end) es
  end.

(** [os.walk(top)]: nothing when [top] is not a directory. *)
Definition os_walk (top : Path) (fs : node)
    : list (Path * list string * list string) :=
  match fs_lookup top fs with
  | Some n => walk_node top n
  | None => []
  end.

(** A file of the tree: a chain of directory entries from a node down to a
    node. *)
Inductive reaches : node → Path → node → Prop :=
| reaches_here n : reaches n [] n
| reaches_down es nm child p n :
    (nm, child) ∈ es → reaches child p n → reaches (Dir es) (nm :: p) n.

End FS.
Import FS.

(** ** The run-time environment: Python built-ins and the external tool *)

Module Runtime.

(** A value of the parsed JSON object: a [str], or anything else. *)
Inductive pyval (Other : Type) : Type :=
| PStr (s : string)
| POther (o : Other).
Arguments PStr {Other} s.
Arguments POther {Other} o.

(** What [subprocess.run] meets: a finished process with its return code and
    diagnostic stream, or an exception of its own (the tool cannot be
    started, its output cannot be decoded). *)
Inductive proc_outcome : Type :=
| Completed (returncode : Z) (stderr : string)
| RunRaised.

(** The world: the file system and the commands run so far, oldest first. *)
Record World : Type := mkWorld {
  fs : node;
  calls : list (list string)
}.

(** What the programs take from their environment.  [json_loads],
    [float_of_str] and [float_of_other] return [None] where Python raises.
    [json_loads] is [json.loads] on the texts the programs hand to it, which
    are empty or start with an opening brace, so what it parses is an
    object.  [run_tool] is the external tool: what [subprocess.run] gets
    back for a command in a world, and the file system the tool leaves. *)
Class Env : Type := {
  Other : Type;
  json_loads : string → option (gmap string (pyval Other));
  float_of_str : string → option float;
  float_of_other : Other → option float;
  str_of_other : Other → string;
  repr_float : float → string;
  format_1f : float → string;
  run_tool : list string → World → proc_outcome * node
}.

Inductive exn : Type :=
| ValueError
| OSError
| CalledProcessError.

(** How a computation ends: a value, an exception, or [sys.exit(code)]. *)
Inductive outcome (A : Type) : Type :=
| Ret (a : A)
| Raise (e : exn)
| Exit (code : Z).
Arguments Ret {A} a.
Arguments Raise {A} e.
Arguments Exit {A} code.

Definition M (A : Type) : Type := World → outcome A * World.

Definition ret {A} (a : A) : M A := λ w, (Ret a, w).

Definition bind {A B} (m : M A) (f : A → M B) : M B := λ w,
  match m w with
  | (Ret a, w') => f a w'
  | (Raise e, w') => (Raise e, w')
  | (Exit c, w') => (Exit c, w')
  end.

Notation "'do' x <- m ; k" := (bind m (λ x, k))
  (at level 10, x name, m at level 100, k at level 200,
   format "'[v' 'do'  x  <-  m ; '/' k ']'").

Definition raise {A} (e : exn) : M A := λ w, (Raise e, w).
Definition sys_exit {A} (code : Z) : M A := λ w, (Exit code, w).

(** [try: m except E: h] for the exceptions [E] that [catches] accepts.
    [sys.exit] is not an [Exception] and passes through. *)
Definition try_except {A} (catches : exn → bool) (m : M A) (h : M A) : M A :=
  λ w, match m w with
       | (Raise e, w') => if catches e then h w' else (Raise e, w')
       | r => r
       end.

Definition any_exception (e : exn) : bool := true.
Definition is_called_process_error (e : exn) : bool :=
  match e with CalledProcessError => true | _ => false end.

Definition of_option {A} (o : option A) (e : exn) : M A :=
  match o with Some a => ret a | None => raise e end.

Definition read_fs : M node := λ w, (Ret (fs w), w).

(** [p.exists()]. *)
Definition exists_ (p : Path) : M bool :=
  λ w, (Ret (path_exists p (fs w)), w).

(** [p.mkdir(parents=True, exist_ok=True)]. *)
Definition mkdir_parents (p : Path) : M unit :=
  λ w, match mkdir_p p (fs w) with
       | Some n => (Ret (), mkWorld n (calls w))
       | None => (Raise OSError, w)
       end.

(** [subprocess.run(cmd, capture_output=True, text=True, check=False)]: the
    return code and the diagnostic stream. *)
Definition subprocess_run `{Env} (cmd : list string) : M (Z * string) :=
  λ w, let '(o, n) := run_tool cmd w in
       let w' := mkWorld n (calls w ++ [cmd]) in
       match o with
       | Completed rc err => (Ret (rc, err), w')
       | RunRaised => (Raise OSError, w')
       end.

(** The same with [check=True]. *)
Definition subprocess_run_checked `{Env} (cmd : list string) : M (Z * string) :=
  do r <- subprocess_run cmd;
  if r.1 =? 0 then ret r else raise CalledProcessError.

(** [float(v)] and the text of [v] in an f-string. *)
Definition py_float `{Env} (v : pyval Other) : option float :=
  match v with
  | PStr s => float_of_str s
  | POther o => float_of_other o
  end.

Definition py_format `{Env} (v : pyval Other) : string :=
  match v with
  | PStr s => s
  | POther o => str_of_other o
  end.

(** [d.get(key, default)]. *)
Definition dict_get `{Env} (d : gmap string (pyval Other)) (key : string)
    (default : pyval Other) : pyval Other :=
  match d !! key with Some v => v | None => default end.

(** The exit status of the process. *)
Definition exit_status {A} (o : outcome A) : Z :=
  match o with
  | Ret _ => 0
  | Exit code => code
  | Raise _ => 1
  end.

End Runtime.
Import Runtime.

(** ** normalize_audio.py *)

Module Normalize.

Definition TARGET_LUFS : float := (-16.0)%float.
Definition TARGET_LRA : float := 7.0%float.
Definition TARGET_TP : float := (-1.0)%float.

Definition find_audio_files (source_dir : Path) (tree : node) : list Path :=
  sorted
    (flat_map
       (λ '(root, _, files),
          map (joinpath root) (List.filter has_audio_extension files))
       (os_walk source_dir tree)).

Definition create_output_path (source_file source_dir output_dir : Path)
    : M Path :=
  do relative_path <- of_option (relative_to source_file source_dir) ValueError;
  do renamed <- of_option (with_suffix relative_path ".mp3") ValueError;
  let output_path := output_dir ++ renamed in
  do _ <- mkdir_parents (parent output_path);
  ret output_path.

(** The command of the first pass. *)
Definition analyze_cmd `{Env} (input_file : Path) : list string :=
  [ "ffmpeg"; "-i"; path_str input_file;
    "-af"; "loudnorm=I=" +:+ repr_float TARGET_LUFS
           +:+ ":TP=" +:+ repr_float TARGET_TP
           +:+ ":LRA=" +:+ repr_float TARGET_LRA
           +:+ ":print_format=json";
    "-f"; "null"; "-" ].

(** What the body of the [try] makes of the diagnostic stream; [None] after
    [Ret] is the function's [return None]. *)
Definition parse_loudness `{Env} (stderr : string)
    : M (option (gmap string (pyval Other))) :=
  match extract_json_block stderr with
  | Some json_str =>
      do d <- of_option (json_loads json_str) ValueError; ret (Some d)
  | None => ret None
  end.

Definition analyze_loudness `{Env} (input_file : Path)
    : M (option (gmap string (pyval Other))) :=
  try_except any_exception
    (do r <- subprocess_run (analyze_cmd input_file); parse_loudness r.2)
    (ret None).

(** [if loudness_data:], the truth value of [None] or a dict. *)
Definition truthy `{Env} (loudness_data : option (gmap string (pyval Other)))
    : bool :=
  match loudness_data with
  | Some d => bool_decide (d ≠ ∅)
  | None => false
  end.

(** The command of the second pass, in its two modes. *)
Definition normalize_cmd `{Env} (input_file output_file : Path)
    (loudness_data : option (gmap string (pyval Other))) : list string :=
  if negb (truthy loudness_data) then
    [ "ffmpeg"; "-i"; path_str input_file;
      "-af"; "loudnorm=I=" +:+ repr_float TARGET_LUFS
             +:+ ":TP=" +:+ repr_float TARGET_TP
             +:+ ":LRA=" +:+ repr_float TARGET_LRA;
      "-ar"; "44100";
      "-b:a"; "192k";
      "-y";
      path_str output_file ]
  else
    let d := default ∅ loudness_data in
    let measured_i := dict_get d "input_i" (PStr "-99.0") in
    let measured_tp := dict_get d "input_tp" (PStr "-99.0") in
    let measured_lra := dict_get d "input_lra" (PStr "0.0") in
    let measured_thresh := dict_get d "input_thresh" (PStr "-99.0") in
    let target_offset := dict_get d "target_offset" (PStr "0.0") in
    [ "ffmpeg"; "-i"; path_str input_file;
      "-af"; "loudnorm=I=" +:+ repr_float TARGET_LUFS
             +:+ ":TP=" +:+ repr_float TARGET_TP
             +:+ ":LRA=" +:+ repr_float TARGET_LRA +:+ ":"
             +:+ "measured_I=" +:+ py_format measured_i
             +:+ ":measured_TP=" +:+ py_format measured_tp +:+ ":"
             +:+ "measured_LRA=" +:+ py_format measured_lra
             +:+ ":measured_thresh=" +:+ py_format measured_thresh +:+ ":"
             +:+ "offset=" +:+ py_format target_offset +:+ ":linear=true";
      "-ar"; "44100";
      "-b:a"; "192k";
      "-y";
      path_str output_file ].

Definition normalize_audio `{Env} (input_file output_file : Path)
    (loudness_data : option (gmap string (pyval Other))) : M bool :=
  try_except is_called_process_error
    (do _ <- subprocess_run_checked
           (normalize_cmd input_file output_file loudness_data);
     ret true)
    (ret false).

Record Counters : Type := mkCounters {
  successful : nat;
  failed : nat;
  skipped : nat
}.

(** One turn of the loop of [main]. *)
Definition process_file `{Env} (source_dir output_dir : Path)
    (c : Counters) (input_file : Path) : M Counters :=
  do _ <- of_option (relative_to input_file source_dir) ValueError;
  do output_file <- create_output_path input_file source_dir output_dir;
  do already <- exists_ output_file;
  if already then
    ret (mkCounters (successful c) (failed c) (S (skipped c)))
  else
    do loudness_data <- analyze_loudness input_file;
    do current_lufs <-
      (if truthy loudness_data
       then of_option
              (py_float (dict_get (default ∅ loudness_data) "input_i"
                           (PStr "-99")))
              ValueError
       else ret 0%float);
    do ok <- normalize_audio input_file output_file loudness_data;
    if ok then ret (mkCounters (S (successful c)) (failed c) (skipped c))
    else ret (mkCounters (successful c) (S (failed c)) (skipped c)).

Fixpoint process_files `{Env} (source_dir output_dir : Path)
    (audio_files : list Path) (c : Counters) : M Counters :=
  match audio_files with
  | [] => ret c
  | input_file :: rest =>
      do c' <- process_file source_dir output_dir c input_file;
      process_files source_dir output_dir rest c'
  end.

(** The test of the single-file search. *)
Definition single_file_match (file_path : string) (root : Path)
    (file : string) : bool :=
  String.eqb file (basename file_path)
  || endswith (path_str (joinpath root file)) file_path.

(** The single-file search: per directory, the first matching file. *)
Definition search_single_file (file_path : string) (top : Path) (tree : node)
    : list Path :=
  omap (λ '(root, _, files),
          joinpath root <$> List.find (single_file_match file_path root) files)
       (os_walk top tree).

(** [main], for the arguments after the script name; the counters are those
    of the summary. *)
Definition main `{Env} (base_dir : Path) (argv : list string) : M Counters :=
  let source_dir := joinpath base_dir "mp3s" in
  let output_dir := joinpath base_dir "normalized" in
  do source_found <- exists_ source_dir;
  if negb source_found then sys_exit 1
  else
    do audio_files <-
      match argv with
      | file_path :: _ =>
          if negb (has_audio_extension file_path) then sys_exit 1
          else
            do tree <- read_fs;
            let audio_files := search_single_file file_path source_dir tree in
            if bool_decide (audio_files = []) then sys_exit 1
            else ret audio_files
      | [] => do tree <- read_fs; ret (find_audio_files source_dir tree)
      end;
    if bool_decide (audio_files = []) then sys_exit 0
    else process_files source_dir output_dir audio_files (mkCounters 0 0 0).

End Normalize.

(** ** verify_audio.py *)

Module Verify.

Definition TARGET_LUFS : float := (-16.0)%float.
Definition LUFS_TOLERANCE : float := 0.5%float.
Definition TARGET_TP : float := (-1.0)%float.

Definition find_audio_files (directory : Path) (tree : node) : list Path :=
  sorted
    (flat_map
       (λ '(root, _, files),
          map (joinpath root) (List.filter has_audio_extension files))
       (os_walk directory tree)).

(** The command of the measurement. *)
Definition analyze_cmd (file_path : Path) : list string :=
  [ "ffmpeg"; "-i"; path_str file_path;
    "-af"; "loudnorm=print_format=json";
    "-f"; "null"; "-" ].

(** The measurement record of the verifier. *)
Record Loudness : Type := mkLoudness {
  lufs : float;
  peak : float;
  lra : float
}.

(** The record built from the parsed object; [None] when a [float(...)]
    raises. *)
Definition loudness_of_dict `{Env} (data : gmap string (pyval Other))
    : option Loudness :=
  match py_float (dict_get data "input_i" (PStr "-99")) with
  | Some l =>
      match py_float (dict_get data "input_tp" (PStr "-99")) with
      | Some p =>
          match py_float (dict_get data "input_lra" (PStr "0")) with
          | Some r => Some (mkLoudness l p r)
          | None => None
          end
      | None => None
      end
  | None => None
  end.

(** What the body of the [try] makes of the diagnostic stream. *)
Definition parse_file `{Env} (stderr : string) : M (option Loudness) :=
  match extract_json_block stderr with
  | Some json_str =>
      do data <- of_option (json_loads json_str) ValueError;
      do record <- of_option (loudness_of_dict data) ValueError;
      ret (Some record)
  | None => ret None
  end.

Definition analyze_file `{Env} (file_path : Path) : M (option Loudness) :=
  try_except any_exception
    (do r <- subprocess_run (analyze_cmd file_path); parse_file r.2)
    (ret None).

Definition lufs_issue `{Env} (l : float) : string :=
  "LUFS " +:+ format_1f l +:+ " (target: " +:+ repr_float TARGET_LUFS
  +:+ "±" +:+ repr_float LUFS_TOLERANCE +:+ ")".

Definition peak_issue `{Env} (p : float) : string :=
  "Peak " +:+ format_1f p +:+ " dBTP exceeds " +:+ repr_float TARGET_TP
  +:+ " dBTP".

Definition check_file_compliance `{Env} (loudness_data : option Loudness)
    : bool * list string :=
  let issues := [] in
  match loudness_data with
  | None => (false, ["Failed to analyze file"])
  | Some data =>
      let issues :=
        if PrimFloat.ltb LUFS_TOLERANCE
             (PrimFloat.abs (PrimFloat.sub (lufs data) TARGET_LUFS))
        then issues ++ [lufs_issue (lufs data)] else issues in
      let issues :=
        if PrimFloat.ltb TARGET_TP (peak data)
        then issues ++ [peak_issue (peak data)] else issues in
      (bool_decide (length issues = 0%nat), issues)
  end.

(** The tallies of the loop of [main]. *)
Record Tally : Type := mkTally {
  compliant_files : nat;
  non_compliant_files : list (string * list string * Loudness);
  failed_files : list string
}.

(** One turn of the loop of [main]. *)
Definition check_one `{Env} (target_dir : Path) (t : Tally) (file_path : Path)
    : M Tally :=
  do relative_path <- of_option (relative_to file_path target_dir) ValueError;
  do loudness_data <- analyze_file file_path;
  let '(is_compliant, issues) := check_file_compliance loudness_data in
  match loudness_data with
  | None =>
      ret (mkTally (compliant_files t) (non_compliant_files t)
             (failed_files t ++ [path_str relative_path]))
  | Some data =>
      if is_compliant then
        ret (mkTally (S (compliant_files t)) (non_compliant_files t)
               (failed_files t))
      else
        ret (mkTally (compliant_files t)
               (non_compliant_files t
                  ++ [(path_str relative_path, issues, data)])
               (failed_files t))
  end.

Fixpoint check_files `{Env} (target_dir : Path) (normalized_files : list Path)
    (t : Tally) : M Tally :=
  match normalized_files with
  | [] => ret t
  | file_path :: rest =>
      do t' <- check_one target_dir t file_path;
      check_files target_dir rest t'
  end.

(** The measurement records of a run of the loop, in the order of the
    files: what [analyze_file] returns for each file in the world the loop
    has reached by then. *)
Fixpoint records `{Env} (normalized_files : list Path) (w : World)
    : list (option Loudness) :=
  match normalized_files with
  | [] => []
  | file_path :: rest =>
      match analyze_file file_path w with
      | (Ret r, w') => r :: records rest w'
      | _ => []
      end
  end.

(** The two all-compliant tests of the summary. *)
Definition all_at_target (normalized_files : list Path) (t : Tally) : bool :=
  let total_checked :=
    Z.of_nat (length normalized_files) - Z.of_nat (length (failed_files t)) in
  (Z.of_nat (compliant_files t) =? total_checked) && (0 <? total_checked).

Definition all_ready (normalized_files : list Path) (t : Tally) : bool :=
  Z.of_nat (compliant_files t) =? Z.of_nat (length normalized_files).

(** The file-count line: [Some true] for a match, [Some false] for a
    mismatch, [None] when no line is printed. *)
Definition count_line (source_files normalized_files : list Path)
    : option bool :=
  if bool_decide (source_files ≠ [])
     && bool_decide (length source_files = length normalized_files)
  then Some true
  else if bool_decide (source_files ≠ []) then Some false
  else None.

(** What a run that reaches the summary reports. *)
Record Report : Type := mkReport {
  source_files : list Path;
  normalized_files : list Path;
  tally : Tally;
  files_at_target : bool;
  files_ready : bool
}.

(** [sys.argv.remove('--source')]: the first occurrence goes. *)
Fixpoint remove_first (x : string) (l : list string) : list string :=
  match l with
  | [] => []
  | y :: l' => if String.eqb y x then l' else y :: remove_first x l'
  end.

(** The tests of the two single-file searches. *)
Definition source_match (file_path : string) (root : Path) (file : string)
    : bool :=
  String.eqb file (basename file_path)
  || endswith (path_str (joinpath root file)) file_path.

Definition normalized_match (file_path : string) (root : Path) (file : string)
    : bool :=
  let search_name := stem (str_name file_path) +:+ ".mp3" in
  String.eqb file search_name
  || String.eqb file (basename file_path)
  || endswith (path_str (joinpath root file)) file_path.

Definition search_single_file (matches : Path → string → bool) (top : Path)
    (tree : node) : list Path :=
  omap (λ '(root, _, files), joinpath root <$> List.find (matches root) files)
       (os_walk top tree).

(** [main], for the arguments after the script name. *)
Definition main `{Env} (base_dir : Path) (argv : list string) : M Report :=
  let check_source := bool_decide ("--source" ∈ argv) in
  let argv := if check_source then remove_first "--source" argv else argv in
  let source_dir := joinpath base_dir "mp3s" in
  let normalized_dir := joinpath base_dir "normalized" in
  let target_dir := if check_source then source_dir else normalized_dir in
  do target_found <- exists_ target_dir;
  if negb target_found then sys_exit 1
  else
    do tree <- read_fs;
    do found <-
      match argv with
      | file_path :: _ =>
          if negb (has_audio_extension file_path) then sys_exit 1
          else
            let target_files :=
              if check_source
              then search_single_file (source_match file_path) target_dir tree
              else search_single_file (normalized_match file_path) target_dir
                     tree in
            if bool_decide (target_files = []) then sys_exit 1
            else ret ([], target_files)
      | [] =>
          if check_source then ret ([], find_audio_files source_dir tree)
          else
            ret (if path_exists source_dir tree
                 then find_audio_files source_dir tree else [],
                 find_audio_files normalized_dir tree)
      end;
    let source_files := found.1 in
    let normalized_files := found.2 in
    if bool_decide (length normalized_files = 0%nat) then sys_exit 0
    else
      do t <- check_files target_dir normalized_files (mkTally 0 [] []);
      ret (mkReport source_files normalized_files t
             (all_at_target normalized_files t)
             (all_ready normalized_files t)).

End Verify.

(** ** A small concrete environment, to run the programs on *)

Module Demo.

Definition float_table : list (string * float) :=
  [ ("-16.0", (-16.0)%float); ("-1.5", (-1.5)%float);
    ("-20.0", (-20.0)%float); ("-0.5", (-0.5)%float);
    ("-99", (-99.0)%float); ("0", 0%float); ("3.0", 3.0%float) ].

Definition float_of_str (s : string) : option float :=
  snd <$> List.find (λ e, String.eqb (fst e) s) float_table.

Definition repr_float (x : float) : string :=
  if PrimFloat.eqb x (-16.0)%float then "-16.0"
  else if PrimFloat.eqb x (-1.0)%float then "-1.0"
  else if PrimFloat.eqb x 7.0%float then "7.0"
  else if PrimFloat.eqb x 0.5%float then "0.5"
  else "?".

Definition format_1f (x : float) : string :=
  if PrimFloat.eqb x (-16.0)%float then "-16.0"
  else if PrimFloat.eqb x (-20.0)%float then "-20.0"
  else if PrimFloat.eqb x (-1.5)%float then "-1.5"
  else if PrimFloat.eqb x (-0.5)%float then "-0.5"
  else "?".

(** The object the tool prints for a measured loudness and true peak: its
    text between the braces, and the whole. *)
Definition json_body (i tp : string) : string :=
  nl
  +:+ dq +:+ "input_i" +:+ dq +:+ " : " +:+ dq +:+ i +:+ dq +:+ "," +:+ nl
  +:+ dq +:+ "input_tp" +:+ dq +:+ " : " +:+ dq +:+ tp +:+ dq +:+ "," +:+ nl
  +:+ dq +:+ "input_lra" +:+ dq +:+ " : " +:+ dq +:+ "3.0" +:+ dq +:+ nl.

Definition json_text (i tp : string) : string :=
  "{" +:+ json_body i tp +:+ "}".

Definition measurement (i tp : string) : gmap string (pyval unit) :=
  {[ "input_i" := PStr i; "input_tp" := PStr tp; "input_lra" := PStr "3.0" ]}.

Definition json_loads (s : string) : option (gmap string (pyval unit)) :=
  if String.eqb s (json_text "-16.0" "-1.5")
  then Some (measurement "-16.0" "-1.5")
  else if String.eqb s (json_text "-20.0" "-0.5")
  then Some (measurement "-20.0" "-0.5")
  else if String.eqb s "{}" then Some ∅
  else None.

(** The diagnostic stream around the object: a line that names the input,
    and a line of statistics. *)
Definition banner (input : string) : string :=
  "Input #0, from '" +:+ input +:+ "':" +:+ nl.
Definition trailer : string := nl +:+ "size=N/A time=00:00:10.00".

(** A tool that measures by the name of its input, fails on inputs called
    broken, cannot be started on inputs called missing, and leaves the file
    system alone. *)
Definition run_tool (cmd : list string) (w : World) : proc_outcome * node :=
  let input := List.nth 2 cmd "" in
  let measuring := String.eqb (List.last cmd "") "-" in
  if is_infix "missing" input then (RunRaised, fs w)
  else if is_infix "broken" input then (Completed 1 "Invalid data", fs w)
  else if negb measuring then (Completed 0 "", fs w)
  else if is_infix "quiet" input
  then (Completed 0
          (banner input +:+ json_text "-20.0" "-0.5" +:+ trailer), fs w)
  else (Completed 0
          (banner input +:+ json_text "-16.0" "-1.5" +:+ trailer), fs w).

Definition env : Env := {|
  Other := unit;
  Runtime.json_loads := json_loads;
  Runtime.float_of_str := float_of_str;
  float_of_other := λ _, None;
  str_of_other := λ _, "None";
  Runtime.repr_float := repr_float;
  Runtime.format_1f := format_1f;
  Runtime.run_tool := run_tool
|}.

(** A tree with three sources, of which one is already normalized. *)
Definition tree : node :=
  Dir [ ("mp3s", Dir [ ("a.wav", File);
                       ("sub", Dir [ ("b.flac", File); ("broken.mp3", File);
                                     ("notes.txt", File) ]) ]);
        ("normalized", Dir [ ("a.mp3", File) ]) ].

Definition world : World := mkWorld tree [].

(** A normalized tree with a compliant file and one that cannot be
    measured. *)
Definition normalized_tree : node :=
  Dir [ ("normalized", Dir [ ("good.mp3", File); ("broken.mp3", File) ]) ].

End Demo.

(** ** Auxiliary notions for the statements and proofs *)

Module Aux.

(** The lines a scan collects, by whether the block has started: the second
    component of [scan_lines]. *)
Fixpoint scan_data (started : bool) (lines : list string)
    (json_data : list string) : list string :=
  match lines with
  | [] => json_data
  | line :: rest =>
      let started := contains lbrace line || started in
      let json_data := if started then json_data ++ [line] else json_data in
      if contains rbrace line && started then json_data
      else scan_data started rest json_data
  end.

(** The text of a list of complete lines, each ended by a newline. *)
Fixpoint lines_cat (ls : list string) : string :=
  match ls with
  | [] => ""
  | l :: ls' => l +:+ String newline (lines_cat ls')
  end.

(** The audio files of a walk. *)
Definition audio_of (walk : list (Path * list string * list string))
    : list Path :=
  flat_map
    (λ '(root, _, files),
       map (joinpath root) (List.filter has_audio_extension files))
    walk.

(** A computation that does not end in [sys.exit]. *)
Definition no_exit {A} (r : outcome A * World) : Prop :=
  ∀ code, r.1 ≠ Exit code.

(** The files a counter record accounts for. *)
Definition total (c : Normalize.Counters) : nat :=
  (Normalize.successful c + Normalize.skipped c + Normalize.failed c)%nat.

(** A record that is [None], and the verdict of the compliance check. *)
Definition is_null (r : option Verify.Loudness) : bool :=
  match r with None => true | Some _ => false end.

Definition is_compliant `{Env} (r : option Verify.Loudness) : bool :=
  (Verify.check_file_compliance r).1.

(** A record that was measured and found wanting. *)
Definition is_violation `{Env} (r : option Verify.Loudness) : bool :=
  negb (is_null r) && negb (is_compliant r).

(** Whether a scan reaches its [break] within the lines it is given. *)
Fixpoint scan_stops (started : bool) (lines : list string) : bool :=
  match lines with
  | [] => false
  | line :: rest =>
      let started := contains lbrace line || started in
      if contains rbrace line && started then true
      else scan_stops started rest
  end.

(** A computation that leaves the file system as it finds it. *)
Definition keeps_fs {A} (m : M A) : Prop := ∀ w, fs (m w).2 = fs w.

(** The output path [create_output_path] computes for a source file,
    before it makes the parent directory. *)
Definition output_path (source_file source_dir output_dir : Path)
    : option Path :=
  match relative_to source_file source_dir with
  | Some relative_path =>
      match with_suffix relative_path ".mp3" with
      | Some renamed => Some (output_dir ++ renamed)
      | None => None
      end
  | None => None
  end.

(** Whether the parent of that path can be made in a tree: the file maps to
    an output path and no file stands in the way of the directory. *)
Definition unblocked (source_dir output_dir : Path) (tree : node)
    (source_file : Path) : bool :=
  match output_path source_file source_dir output_dir with
  | Some p => bool_decide (mkdir_p (parent p) tree ≠ None)
  | None => false
  end.

(** The commands a run issues for a source file: the measurement, and the
    normalization into the output path of the file. *)
Definition command_of `{Env} (source_dir output_dir : Path)
    (source_file : Path) (cmd : list string) : Prop :=
  cmd = Normalize.analyze_cmd source_file
  ∨ ∃ p data,
      output_path source_file source_dir output_dir = Some p
      ∧ cmd = Normalize.normalize_cmd source_file p data.

(** No file of a run is blocked. *)
Definition all_clear (source_dir output_dir : Path) (files : list Path)
    (w : World) : Prop :=
  ∀ f, f ∈ files → unblocked source_dir output_dir (fs w) f = true.

End Aux.
Import Aux.

(** ** Concrete inputs *)

Module Cases.

(** One JSON object whose first string value holds a closing brace, and
    which continues on a second line. *)
Definition brace_object : string :=
  "{" +:+ dq +:+ "a" +:+ dq +:+ ": " +:+ dq +:+ "}" +:+ dq +:+ "," +:+ nl
  +:+ dq +:+ "b" +:+ dq +:+ ": 1}".

Definition brace_blob : string :=
  "frame=1" +:+ nl +:+ brace_object +:+ nl +:+ "done".

(** One JSON object with an object inside, on three lines. *)
Definition nested_object : string :=
  "{" +:+ dq +:+ "a" +:+ dq +:+ ": {" +:+ nl
  +:+ dq +:+ "b" +:+ dq +:+ ": 1}" +:+ nl +:+ "}".

Definition nested_blob : string :=
  "frame=1" +:+ nl +:+ nested_object +:+ nl +:+ "done".

(** A tree in which a file and a directory share the start of their
    names. *)
Definition sort_tree : node :=
  Dir [ ("mp3s", Dir [ ("a.mp3", File); ("a", Dir [ ("b.mp3", File) ]) ]) ].

(** A normalized tree whose one file is compliant. *)
Definition ready_tree : node :=
  Dir [ ("normalized", Dir [ ("good.mp3", File) ]) ].

(** A tree that holds the output of a source in a sub-directory. *)
Definition output_tree : node :=
  Dir [ ("normalized", Dir [ ("sub", Dir [ ("b.mp3", File) ]) ]) ].

(** The tree of the demonstration with the entries of its directories in
    another order. *)
Definition shuffled_tree : node :=
  Dir [ ("normalized", Dir [ ("a.mp3", File) ]);
        ("mp3s", Dir [ ("sub", Dir [ ("notes.txt", File);
                                     ("broken.mp3", File);
                                     ("b.flac", File) ]);
                       ("a.wav", File) ]) ].

(** A normalized tree that holds an output beside a file with the name of
    its source. *)
Definition twin_tree : node :=
  Dir [ ("normalized", Dir [ ("b.flac", File); ("b.mp3", File) ]) ].

End Cases.

(** ** The progress bar of normalize_audio.py *)

Module Progress.

(** [s * n]: the empty text when [n] is not positive. *)
Fixpoint repeat_nat (s : string) (n : nat) : string :=
  match n with
  | O => ""
  | S n' => s +:+ repeat_nat s n'
  end.

Definition repeat_str (s : string) (n : Z) : string :=
  repeat_nat s (Z.to_nat n).

Definition progress_bar_length : Z := 30.

(** [int(progress_bar_length * current // total)] of [format_progress]; the
    floor division of Python is [Z.div] for a total that is not zero. *)
Definition filled_length (current total : Z) : Z :=
  progress_bar_length * current / total.

(** The [bar] of [format_progress]. *)
Definition bar (current total : Z) : string :=
  repeat_str "█" (filled_length current total)
  +:+ repeat_str "░" (progress_bar_length - filled_length current total).

End Progress.

(** * Properties *)

(** ** Text *)

Section text_lemmas.

Implicit Types (s t u : string) (a c : ascii).

Lemma str_app_nil_l s : "" +:+ s = s.
Proof. reflexivity. Qed.

Lemma str_app_cons a s t : String a s +:+ t = String a (s +:+ t).
Proof. reflexivity. Qed.

Lemma str_app_nil_r s : s +:+ "" = s.
Proof. induction s as [|a s IH]; [done|]. by rewrite str_app_cons, IH. Qed.

Lemma str_app_assoc s t u : (s +:+ t) +:+ u = s +:+ (t +:+ u).
Proof.
  induction s as [|a s IH]; [done|]. by rewrite !str_app_cons, IH.
Qed.

Lemma str_length_app s t :
  String.length (s +:+ t) = (String.length s + String.length t)%nat.
Proof.
  induction s as [|a s IH]; [done|]. rewrite str_app_cons. simpl. by rewrite IH.
Qed.

Lemma contains_app c s t :
  contains c (s +:+ t) = contains c s || contains c t.
Proof.
  induction s as [|a s IH]; [done|].
  rewrite str_app_cons. simpl. rewrite IH. by rewrite orb_assoc.
Qed.

Lemma contains_cons_ne a c s :
  Ascii.eqb a c = false → contains c (String a s) = contains c s.
Proof. intros E. simpl. by rewrite E. Qed.

Lemma split_nonempty c s : split c s ≠ [].
Proof.
  destruct s as [|a s]; [done|]. simpl.
  destruct (Ascii.eqb a c); [done|]. by destruct (split c s).
Qed.

(** A text without separator in front of any text: it joins the first
    piece. *)
Lemma split_app_head c s t :
  contains c s = false →
  split c (s +:+ t) =
    match split c t with
    | h :: tl => (s +:+ h) :: tl
    | [] => [s]
    end.
Proof.
  induction s as [|a s IH]; intros Hs.
  - rewrite str_app_nil_l. destruct (split c t) eqn:E; [|done].
    by apply split_nonempty in E.
  - simpl in Hs. apply orb_false_iff in Hs as [Ha Hs].
    rewrite str_app_cons. simpl. rewrite Ha, (IH Hs).
    by destruct (split c t).
Qed.

Lemma split_line c s t :
  contains c s = false →
  split c (s +:+ String c t) = s :: split c t.
Proof.
  intros Hs. rewrite (split_app_head _ _ _ Hs). simpl.
  rewrite Ascii.eqb_refl. by rewrite str_app_nil_r.
Qed.

Lemma split_single c s : contains c s = false → split c s = [s].
Proof.
  intros Hs. rewrite <- (str_app_nil_r s) at 1.
  rewrite (split_app_head _ _ _ Hs). simpl. by rewrite str_app_nil_r.
Qed.

Lemma join_cons sep x xs :
  xs ≠ [] → join sep (x :: xs) = x +:+ sep +:+ join sep xs.
Proof. by destruct xs. Qed.

Lemma join_split c s : join (String c "") (split c s) = s.
Proof.
  induction s as [|a s IH]; [done|]. simpl.
  pose proof (split_nonempty c s) as Hne.
  destruct (Ascii.eqb a c) eqn:E.
  - apply Ascii.eqb_eq in E as ->.
    rewrite (join_cons _ _ _ Hne), IH. reflexivity.
  - destruct (split c s) as [|l ls]; [done|].
    destruct ls as [|l' ls].
    + simpl in *. by rewrite IH.
    + rewrite join_cons by done. rewrite join_cons in IH by done.
      rewrite str_app_cons. by rewrite IH.
Qed.

End text_lemmas.

(** Appends to the right, characters to the front. *)
Ltac str_norm :=
  repeat (rewrite str_app_assoc || rewrite str_app_cons
          || rewrite str_app_nil_l).

(** ** The JSON block *)

Section extract_lemmas.

Implicit Types (s t u : string) (a c : ascii).

Lemma scan_lines_data i lines js acc :
  (scan_lines i lines js acc).2 = scan_data (bool_decide (js ≠ None)) lines acc.
Proof.
  revert i js acc. induction lines as [|line rest IH]; intros i js acc; [done|].
  simpl. destruct js as [k|]; destruct (contains lbrace line);
    destruct (contains rbrace line); simpl; try done; by rewrite IH.
Qed.

Lemma scan_data_skip started pre lines acc :
  started = false →
  Forall (λ l, contains lbrace l = false) pre →
  scan_data started (pre ++ lines) acc = scan_data started lines acc.
Proof.
  intros -> H. induction H as [|l pre Hl _ IH]; [done|].
  simpl. rewrite Hl. simpl. by rewrite andb_false_r.
Qed.

Lemma scan_data_started mid last rest acc :
  Forall (λ l, contains rbrace l = false) mid →
  contains rbrace last = true →
  scan_data true (mid ++ last :: rest) acc = acc ++ mid ++ [last].
Proof.
  intros H Hlast. revert acc.
  induction H as [|l mid Hl _ IH]; intros acc.
  - simpl. rewrite Hlast. by rewrite orb_true_r.
  - simpl. rewrite Hl, orb_true_r. simpl. rewrite IH. by rewrite <- app_assoc.
Qed.

(** The lines the scan keeps: from the first line with an opening brace to
    the first line, from there on, with a closing brace. *)
Lemma scan_data_block pre mid last rest :
  Forall (λ l, contains lbrace l = false) pre →
  Forall (λ l, contains rbrace l = false) mid →
  contains lbrace (hd last mid) = true →
  contains rbrace last = true →
  scan_data false (pre ++ mid ++ last :: rest) [] = mid ++ [last].
Proof.
  intros Hpre Hmid Hopen Hclose.
  rewrite scan_data_skip by done.
  destruct mid as [|l mid]; simpl in *.
  - by rewrite Hopen, Hclose.
  - apply Forall_cons in Hmid as [Hl Hmid].
    rewrite Hopen, Hl. simpl.
    by rewrite scan_data_started.
Qed.

Lemma find_nonneg_iff c s : 0 <= find c s ↔ contains c s = true.
Proof.
  induction s as [|a s IH]; simpl; [split; [lia|done]|].
  destruct (Ascii.eqb a c); simpl; [split; [done|lia]|].
  destruct (Z.ltb_spec (find c s) 0) as [Hlt|Hge].
  - split; [lia|]. intros Hc. apply IH in Hc. lia.
  - split; [|lia]. intros _. by apply IH.
Qed.

Lemma find_app_first c s t :
  contains c s = false →
  find c (s +:+ String c t) = Z.of_nat (String.length s).
Proof.
  induction s as [|a s IH]; intros Hs.
  - rewrite str_app_nil_l. simpl. by rewrite Ascii.eqb_refl.
  - simpl in Hs. apply orb_false_iff in Hs as [Ha Hs].
    rewrite str_app_cons. simpl. rewrite Ha, (IH Hs).
    destruct (Z.ltb_spec (Z.of_nat (String.length s)) 0); lia.
Qed.

Lemma rfind_none c s : contains c s = false → rfind c s = -1.
Proof.
  induction s as [|a s IH]; [done|]. simpl. intros Hs.
  apply orb_false_iff in Hs as [Ha Hs]. by rewrite (IH Hs), Ha.
Qed.

Lemma rfind_app_last c s t :
  contains c t = false →
  rfind c (s +:+ String c t) = Z.of_nat (String.length s).
Proof.
  intros Ht. induction s as [|a s IH].
  - rewrite str_app_nil_l. simpl. rewrite (rfind_none _ _ Ht). simpl.
    by rewrite Ascii.eqb_refl.
  - rewrite str_app_cons. simpl. rewrite IH.
    destruct (Z.leb_spec 0 (Z.of_nat (String.length s))); lia.
Qed.

Lemma substring_0_app s t : substring 0 (String.length s) (s +:+ t) = s.
Proof.
  induction s as [|a s IH]; [by destruct t|].
  rewrite str_app_cons. simpl. by rewrite IH.
Qed.

Lemma substring_skip s n t :
  substring (String.length s) n (s +:+ t) = substring 0 n t.
Proof. induction s as [|a s IH]; [done|]. rewrite str_app_cons. simpl. apply IH. Qed.

Lemma substring_empty n s : substring n 0 s = "".
Proof.
  revert n. induction s as [|a s IH]; intros [|n]; simpl; done.
Qed.

(** The slice between the first opening and the last closing brace. *)
Lemma slice_braces p body q :
  contains lbrace p = false →
  contains rbrace q = false →
  let obj := String lbrace (body +:+ String rbrace "") in
  let json_str := p +:+ obj +:+ q in
  slice json_str (find lbrace json_str) (rfind rbrace json_str + 1) = obj.
Proof.
  intros Hp Hq obj json_str.
  assert (Hfind : find lbrace json_str = Z.of_nat (String.length p)).
  { unfold json_str, obj. rewrite str_app_cons. by apply find_app_first. }
  assert (Hrfind : rfind rbrace json_str
                   = Z.of_nat (String.length p + S (String.length body))).
  { unfold json_str, obj.
    replace (p +:+ String lbrace (body +:+ String rbrace "") +:+ q)
      with ((p +:+ String lbrace body) +:+ String rbrace q).
    - rewrite rfind_app_last by done. rewrite str_length_app. done.
    - rewrite !str_app_assoc, !str_app_cons, !str_app_assoc. done. }
  unfold slice. rewrite Hfind, Hrfind.
  assert (Hlen : String.length json_str
                 = (String.length p + String.length obj + String.length q)%nat).
  { unfold json_str. rewrite !str_length_app. lia. }
  assert (Hobj : String.length obj = S (S (String.length body))).
  { unfold obj. simpl. rewrite str_length_app. simpl. lia. }
  rewrite Hlen, Hobj. unfold clamp.
  set (lp := String.length p). set (lb := String.length body).
  set (lq := String.length q).
  destruct (Z.ltb_spec (Z.of_nat lp) 0); [lia|].
  destruct (Z.ltb_spec (Z.of_nat (lp + S lb) + 1) 0); [lia|].
  replace (Z.to_nat (Z.max 0 (Z.min (Z.of_nat (lp + S (S lb) + lq)) (Z.of_nat lp))))
    with lp by lia.
  replace (Z.to_nat (_ - _)) with (String.length obj) by (rewrite Hobj; lia).
  unfold json_str, lp. rewrite substring_skip. apply substring_0_app.
Qed.

End extract_lemmas.

Section block_lemmas.

Implicit Types (s t u : string) (c : ascii).

Lemma lines_decompose s :
  ∃ ls x, s = lines_cat ls +:+ x
          ∧ Forall (λ l, contains newline l = false) ls
          ∧ contains newline x = false.
Proof.
  induction s as [|a s (ls & x & -> & Hls & Hx)].
  - by exists [], "".
  - destruct (Ascii.eqb a newline) eqn:E.
    + apply Ascii.eqb_eq in E as ->.
      exists ("" :: ls), x. split_and!; [done| by constructor |done].
    + destruct ls as [|l ls].
      * exists [], (String a x). split_and!; [done..|]. simpl. by rewrite E.
      * apply Forall_cons in Hls as [Hl Hls].
        exists (String a l :: ls), x. split_and!; [done| |done].
        constructor; [|done]. simpl. by rewrite E.
Qed.

Lemma split_lines_cat ls t :
  Forall (λ l, contains newline l = false) ls →
  split newline (lines_cat ls +:+ t) = ls ++ split newline t.
Proof.
  induction 1 as [|l ls Hl _ IH]; [done|].
  simpl. rewrite str_app_assoc, str_app_cons, split_line by done.
  by rewrite IH.
Qed.

Lemma join_lines_cat ls x : join nl (ls ++ [x]) = lines_cat ls +:+ x.
Proof.
  induction ls as [|l ls IH]; [done|].
  rewrite <- app_comm_cons, join_cons by (by destruct ls).
  rewrite IH. simpl. unfold nl. by rewrite !str_app_assoc, str_app_cons.
Qed.

Lemma contains_cons c (a : ascii) s :
  contains c (String a s) = Ascii.eqb a c || contains c s.
Proof. reflexivity. Qed.

Lemma contains_lines_cat c ls x :
  contains c (lines_cat ls +:+ x) = false →
  Forall (λ l, contains c l = false) ls ∧ contains c x = false.
Proof.
  induction ls as [|l ls IH]; cbn [lines_cat]; [done|].
  rewrite str_app_assoc, str_app_cons, contains_app, contains_cons.
  intros [Hl [_ H]%orb_false_iff]%orb_false_iff.
  destruct (IH H). split; [by constructor|done].
Qed.

Lemma contains_split c sep s :
  contains c s = false →
  Forall (λ l, contains c l = false) (split sep s).
Proof.
  induction s as [|a s IH]; [by repeat constructor|].
  rewrite contains_cons. intros [Ha Hs]%orb_false_iff.
  specialize (IH Hs). cbn [split].
  destruct (Ascii.eqb a sep); [by constructor|].
  destruct (split sep s) as [|l ls].
  - repeat constructor. by rewrite contains_cons, Ha.
  - apply Forall_cons in IH as [Hl Hls].
    constructor; [|done]. by rewrite contains_cons, Ha, Hl.
Qed.

Lemma split_rbrace_head t :
  split newline (String rbrace t) =
    match split newline t with
    | h :: tl => String rbrace h :: tl
    | [] => [String rbrace ""]
    end.
Proof. reflexivity. Qed.

(** The lines of a blob that holds one object: the lines before it, the
    lines of the object up to its last one, the line on which it ends, and
    the rest. *)
Lemma object_lines (pre a b post : string) :
  contains lbrace pre = false →
  contains rbrace pre = false →
  contains rbrace a = false →
  contains newline b = false →
  contains rbrace post = false →
  ∃ before mid last rest p q,
    split newline
      (pre +:+ String lbrace (a +:+ b +:+ String rbrace "") +:+ post)
    = before ++ mid ++ last :: rest
    ∧ Forall (λ l, contains lbrace l = false) before
    ∧ Forall (λ l, contains rbrace l = false) mid
    ∧ contains lbrace (hd last mid) = true
    ∧ contains rbrace last = true
    ∧ join nl (mid ++ [last])
      = p +:+ String lbrace (a +:+ b +:+ String rbrace "") +:+ q
    ∧ contains lbrace p = false
    ∧ contains rbrace q = false.
Proof.
  intros Hpre_l Hpre_r Ha Hb Hpost.
  destruct (lines_decompose pre) as (PL & p & -> & HPL & Hp).
  destruct (lines_decompose (String lbrace a)) as (XL & x & HX & HXL & Hx).
  apply contains_lines_cat in Hpre_l as [HPL_l Hp_l].
  apply contains_lines_cat in Hpre_r as [HPL_r Hp_r].
  assert (HXr : contains rbrace (lines_cat XL +:+ x) = false).
  { rewrite <- HX, contains_cons. by rewrite Ha. }
  apply contains_lines_cat in HXr as [HXL_r Hx_r].
  pose proof (contains_split rbrace newline post Hpost) as Hq.
  pose proof (split_nonempty newline post) as Hne.
  destruct (split newline post) as [|q rest] eqn:Epost; [done|].
  apply Forall_cons in Hq as [Hq _].
  assert (Hobj : String lbrace (a +:+ b +:+ String rbrace "")
                 = lines_cat XL +:+ x +:+ b +:+ String rbrace "").
  { rewrite <- (str_app_assoc (lines_cat XL)), <- HX. by str_norm. }
  exists PL.
  destruct XL as [|l1 XL].
  - exists [], (p +:+ x +:+ b +:+ String rbrace q), rest, p, q.
    split_and!; try done.
    + rewrite Hobj. cbn [lines_cat]. str_norm.
      rewrite split_lines_cat by done. f_equal.
      rewrite !split_app_head by done.
      by rewrite split_rbrace_head, Epost.
    + cbn [hd]. rewrite !contains_app.
      assert (contains lbrace x = true) as ->; [|by rewrite orb_true_r].
      cbn [lines_cat] in HX. rewrite str_app_nil_l in HX. rewrite <- HX.
      rewrite contains_cons. by rewrite Ascii.eqb_refl.
    + rewrite !contains_app, contains_cons, Ascii.eqb_refl.
      by rewrite !orb_true_r.
    + cbn [app join]. rewrite Hobj. cbn [lines_cat]. by str_norm.
  - apply Forall_cons in HXL as [Hl1 HXL].
    apply Forall_cons in HXL_r as [Hl1_r HXL_r].
    exists ((p +:+ l1) :: XL), (x +:+ b +:+ String rbrace q), rest, p, q.
    split_and!; try done.
    + rewrite Hobj. cbn [lines_cat]. str_norm.
      rewrite split_lines_cat by done. f_equal.
      rewrite <- (str_app_assoc p l1).
      rewrite split_line by (by rewrite contains_app, Hp, Hl1).
      rewrite split_lines_cat by done.
      rewrite !split_app_head by done.
      by rewrite split_rbrace_head, Epost.
    + constructor; [|done]. by rewrite contains_app, Hp_r, Hl1_r.
    + cbn [hd]. rewrite contains_app.
      assert (contains lbrace l1 = true) as ->; [|by rewrite orb_true_r].
      cbn [lines_cat] in HX. destruct l1 as [|c l1].
      * rewrite str_app_nil_l in HX. by injection HX.
      * rewrite str_app_cons in HX. injection HX as <- _.
        rewrite contains_cons. by rewrite Ascii.eqb_refl.
    + rewrite !contains_app, contains_cons, Ascii.eqb_refl.
      by rewrite !orb_true_r.
    + rewrite join_lines_cat. rewrite Hobj.
      cbn [lines_cat]. by str_norm.
Qed.

Lemma extract_json_block_eq stderr :
  extract_json_block stderr =
    let json_str := join nl (scan_data false (split newline stderr) []) in
    if bool_decide (scan_data false (split newline stderr) [] = []) then None
    else Some (slice json_str (find lbrace json_str)
                 (rfind rbrace json_str + 1)).
Proof.
  unfold extract_json_block.
  pose proof (scan_lines_data 0 (split newline stderr) None []) as Hd.
  destruct (scan_lines _ _ _ _) as [js json_data].
  cbn [snd] in Hd. subst json_data.
  replace (bool_decide (None ≠ None)) with false by done.
  by destruct (scan_data _ _ _).
Qed.

(** The text the scan hands to the parser is the object. *)
Lemma extract_object (pre a b post : string) :
  contains lbrace pre = false →
  contains rbrace pre = false →
  contains rbrace a = false →
  contains newline b = false →
  contains rbrace post = false →
  let obj := String lbrace (a +:+ b +:+ String rbrace "") in
  extract_json_block (pre +:+ obj +:+ post) = Some obj.
Proof.
  intros Hpre_l Hpre_r Ha Hb Hpost_r obj.
  destruct (object_lines pre a b post)
    as (before & mid & last & rest & p & q & Hsplit & Hbefore & Hmid
        & Hopen & Hclose & Hjoin & Hp & Hq); try done.
  rewrite extract_json_block_eq. fold obj in Hsplit. rewrite Hsplit.
  rewrite scan_data_block by done.
  rewrite bool_decide_false by (by destruct mid).
  cbv zeta. rewrite Hjoin. f_equal. unfold obj.
  rewrite <- (str_app_assoc a b). by apply slice_braces.
Qed.

End block_lemmas.

Section no_pair_lemmas.

Implicit Types (s t u : string) (c : ascii).

Lemma scan_data_started_segment lines acc :
  ∃ B C, lines = B ++ C ∧ scan_data true lines acc = acc ++ B.
Proof.
  revert acc. induction lines as [|l lines IH]; intros acc.
  - exists [], []. split; [done|]. by rewrite app_nil_r.
  - cbn [scan_data]. rewrite orb_true_r, andb_true_r.
    destruct (contains rbrace l).
    + by exists [l], lines.
    + destruct (IH (acc ++ [l])) as (B & C & -> & ->).
      exists (l :: B), C. by rewrite <- app_assoc.
Qed.

Lemma scan_data_segment lines :
  ∃ A B C, lines = A ++ B ++ C
           ∧ scan_data false lines [] = B
           ∧ (B ≠ [] → contains lbrace (hd "" B) = true).
Proof.
  induction lines as [|l lines (A & B & C & -> & HB & Hhd)].
  - by exists [], [], [].
  - cbn [scan_data]. rewrite orb_false_r.
    destruct (contains lbrace l) eqn:El.
    + rewrite andb_true_r. destruct (contains rbrace l).
      * by exists [], [l], (A ++ B ++ C).
      * destruct (scan_data_started_segment (A ++ B ++ C) ([] ++ [l]))
          as (B' & C' & -> & ->).
        by exists [], (l :: B'), C'.
    + rewrite andb_false_r. by exists (l :: A), B, C.
Qed.

Lemma join_app sep (A B : list string) :
  A ≠ [] → B ≠ [] →
  join sep (A ++ B) = join sep A +:+ sep +:+ join sep B.
Proof.
  induction A as [|x A IH]; [done|]. intros _ HB.
  destruct A as [|y A].
  - cbn [app]. by rewrite join_cons.
  - rewrite <- app_comm_cons, !join_cons by done.
    rewrite IH by done. by rewrite !str_app_assoc.
Qed.

Lemma join_segment sep (A B C : list string) :
  B ≠ [] → ∃ X Y, join sep (A ++ B ++ C) = X +:+ join sep B +:+ Y.
Proof.
  intros HB.
  assert (HBC : ∃ Y, join sep (B ++ C) = join sep B +:+ Y).
  { destruct C as [|z C].
    - exists "". by rewrite app_nil_r, str_app_nil_r.
    - exists (sep +:+ join sep (z :: C)). by apply join_app. }
  destruct HBC as [Y HY].
  destruct A as [|x A].
  - exists "", Y. cbn [app]. by rewrite HY.
  - exists (join sep (x :: A) +:+ sep), Y.
    rewrite join_app by (done || by destruct B).
    by rewrite HY, !str_app_assoc.
Qed.

Lemma contains_join_hd c sep (B : list string) :
  contains c (hd "" B) = true → contains c (join sep B) = true.
Proof.
  destruct B as [|x B]; [done|]. cbn [hd]. intros Hx.
  destruct B; [done|]. rewrite join_cons by done.
  by rewrite contains_app, Hx.
Qed.

Lemma has_brace_pair_cons (a : ascii) s :
  has_brace_pair (String a s)
  = (Ascii.eqb a lbrace && contains rbrace s) || has_brace_pair s.
Proof. reflexivity. Qed.

Lemma has_brace_pair_app s t :
  has_brace_pair (s +:+ t) = false →
  has_brace_pair s = false ∧ has_brace_pair t = false.
Proof.
  induction s as [|a s IH]; [done|].
  rewrite str_app_cons, !has_brace_pair_cons, contains_app.
  intros [Ha Hst]%orb_false_iff. destruct (IH Hst) as [Hs Ht].
  split; [|done]. rewrite Hs, orb_false_r.
  destruct (Ascii.eqb a lbrace); [|done].
  cbn [andb] in *. by apply orb_false_iff in Ha as [-> _].
Qed.

Lemma rfind_ge c s : -1 <= rfind c s.
Proof.
  induction s as [|a s IH]; cbn [rfind]; [lia|].
  destruct (Z.leb_spec 0 (rfind c s)); [lia|]. destruct (Ascii.eqb a c); lia.
Qed.

Lemma rfind_lt_find s :
  has_brace_pair s = false → contains lbrace s = true →
  rfind rbrace s < find lbrace s.
Proof.
  induction s as [|a s IH]; [done|].
  rewrite has_brace_pair_cons, contains_cons. cbn [find rfind].
  intros [Ha Hs]%orb_false_iff Hc.
  destruct (Ascii.eqb a lbrace) eqn:E.
  - cbn [andb] in Ha. rewrite (rfind_none _ _ Ha).
    apply Ascii.eqb_eq in E as ->. by cbn.
  - cbn [orb] in Hc. specialize (IH Hs Hc).
    apply find_nonneg_iff in Hc.
    destruct (Z.ltb_spec (find lbrace s) 0); [lia|].
    destruct (Z.leb_spec 0 (rfind rbrace s)); [lia|].
    destruct (Ascii.eqb a rbrace); lia.
Qed.

Lemma slice_no_pair s :
  has_brace_pair s = false → contains lbrace s = true →
  slice s (find lbrace s) (rfind rbrace s + 1) = "".
Proof.
  intros Hs Hc. pose proof (rfind_lt_find s Hs Hc) as Hlt.
  pose proof (rfind_ge rbrace s) as Hge.
  apply find_nonneg_iff in Hc.
  unfold slice, clamp.
  destruct (Z.ltb_spec (find lbrace s) 0); [lia|].
  destruct (Z.ltb_spec (rfind rbrace s + 1) 0); [lia|].
  replace (Z.to_nat (_ - _)) with 0%nat by lia.
  apply substring_empty.
Qed.

(** Without a brace pair the scan hands nothing, or the empty text, to the
    parser. *)
Lemma extract_no_pair blob :
  has_brace_pair blob = false →
  extract_json_block blob = None ∨ extract_json_block blob = Some "".
Proof.
  intros Hblob. rewrite extract_json_block_eq. cbv zeta.
  destruct (scan_data_segment (split newline blob))
    as (A & B & C & Hsplit & -> & Hhd).
  case_bool_decide as HB; [by left|right].
  destruct (join_segment nl A B C HB) as (X & Y & Hjoin).
  rewrite <- Hsplit in Hjoin. unfold nl in Hjoin at 1.
  rewrite join_split in Hjoin. subst blob.
  apply has_brace_pair_app in Hblob as [_ Hblob].
  apply has_brace_pair_app in Hblob as [Hblob _].
  f_equal. apply slice_no_pair; [done|].
  apply contains_join_hd. auto.
Qed.

End no_pair_lemmas.

Section analysis.

Context `{Env}.

Lemma normalize_analysis_result input_file w rc blob n :
  run_tool (Normalize.analyze_cmd input_file) w = (Completed rc blob, n) →
  Normalize.analyze_loudness input_file w =
    (Ret (match extract_json_block blob with
          | Some json_str => json_loads json_str
          | None => None
          end),
     mkWorld n (calls w ++ [Normalize.analyze_cmd input_file])).
Proof.
  intros Hrun.
  unfold Normalize.analyze_loudness, try_except, bind, subprocess_run.
  rewrite Hrun. cbn [snd]. unfold Normalize.parse_loudness.
  destruct (extract_json_block blob) as [json_str|]; [|done].
  unfold bind, of_option. by destruct (json_loads json_str).
Qed.

Lemma verify_analysis_result file_path w rc blob n :
  run_tool (Verify.analyze_cmd file_path) w = (Completed rc blob, n) →
  Verify.analyze_file file_path w =
    (Ret (match extract_json_block blob with
          | Some json_str => json_loads json_str ≫= Verify.loudness_of_dict
          | None => None
          end),
     mkWorld n (calls w ++ [Verify.analyze_cmd file_path])).
Proof.
  intros Hrun.
  unfold Verify.analyze_file, try_except, bind, subprocess_run.
  rewrite Hrun. cbn [snd]. unfold Verify.parse_file.
  destruct (extract_json_block blob) as [json_str|]; [|done].
  unfold bind, of_option. destruct (json_loads json_str) as [d|]; [|done].
  cbn. by destruct (Verify.loudness_of_dict d).
Qed.

(** C2 (amended): when the text before the object holds no brace, the text
    after it no closing brace, and every closing brace of the object lies on
    the object's last line (the object is an opening brace, a text [a]
    without closing brace, a text [b] without newline, and a closing brace),
    the line scan hands exactly the object to the parser, so both analyses
    return what [json.loads] makes of it; and when the blob has no opening
    brace followed by a closing one, both analyses return [None] without
    raising. *)
Theorem json_block_extraction :
  json_loads "" = None →
  (∀ pre a b post : string,
     contains lbrace pre = false → contains rbrace pre = false →
     contains rbrace a = false → contains newline b = false →
     contains rbrace post = false →
     let obj := String lbrace (a +:+ b +:+ String rbrace "") in
     let blob := pre +:+ obj +:+ post in
     extract_json_block blob = Some obj
     ∧ (∀ input_file w rc n,
          run_tool (Normalize.analyze_cmd input_file) w
            = (Completed rc blob, n) →
          Normalize.analyze_loudness input_file w =
            (Ret (json_loads obj),
             mkWorld n (calls w ++ [Normalize.analyze_cmd input_file])))
     ∧ (∀ file_path w rc n,
          run_tool (Verify.analyze_cmd file_path) w
            = (Completed rc blob, n) →
          Verify.analyze_file file_path w =
            (Ret (json_loads obj ≫= Verify.loudness_of_dict),
             mkWorld n (calls w ++ [Verify.analyze_cmd file_path]))))
  ∧ (∀ blob : string,
       has_brace_pair blob = false →
       (∀ input_file w rc n,
          run_tool (Normalize.analyze_cmd input_file) w
            = (Completed rc blob, n) →
          Normalize.analyze_loudness input_file w =
            (Ret None,
             mkWorld n (calls w ++ [Normalize.analyze_cmd input_file])))
       ∧ (∀ file_path w rc n,
            run_tool (Verify.analyze_cmd file_path) w
              = (Completed rc blob, n) →
            Verify.analyze_file file_path w =
              (Ret None,
               mkWorld n (calls w ++ [Verify.analyze_cmd file_path])))).
Proof.
  intros Hempty. split.
  - intros pre a b post ????? obj blob.
    assert (Hex : extract_json_block blob = Some obj)
      by (by apply extract_object).
    split_and!; [done|..]; intros ???? Hrun.
    + by rewrite (normalize_analysis_result _ _ _ _ _ Hrun), Hex.
    + by rewrite (verify_analysis_result _ _ _ _ _ Hrun), Hex.
  - intros blob Hblob. split; intros ???? Hrun.
    + rewrite (normalize_analysis_result _ _ _ _ _ Hrun).
      by destruct (extract_no_pair blob Hblob) as [-> | ->]; rewrite ?Hempty.
    + rewrite (verify_analysis_result _ _ _ _ _ Hrun).
      by destruct (extract_no_pair blob Hblob) as [-> | ->]; rewrite ?Hempty.
Qed.

End analysis.


(** C2, witness: the object of the demo tool, between its banner and its
    trailer, and a diagnostic stream without braces. *)
Lemma json_block_extraction_witness :
  extract_json_block
    (Demo.banner "mp3s/a.wav" +:+ Demo.json_text "-16.0" "-1.5"
     +:+ Demo.trailer)
  = Some (Demo.json_text "-16.0" "-1.5")
  ∧ @Normalize.analyze_loudness Demo.env ["mp3s"; "a.wav"] Demo.world
    = (Ret (Some (Demo.measurement "-16.0" "-1.5")),
       mkWorld Demo.tree [@Normalize.analyze_cmd Demo.env ["mp3s"; "a.wav"]])
  ∧ @Verify.analyze_file Demo.env ["mp3s"; "sub"; "broken.mp3"] Demo.world
    = (Ret None,
       mkWorld Demo.tree [Verify.analyze_cmd ["mp3s"; "sub"; "broken.mp3"]]).
Proof.
  destruct (@json_block_extraction Demo.env eq_refl) as [Hobject Hnone].
  destruct (Hobject (Demo.banner "mp3s/a.wav") (Demo.json_body "-16.0" "-1.5")
              "" Demo.trailer eq_refl eq_refl eq_refl eq_refl eq_refl)
    as (Hextract & Hnormalize & _).
  destruct (Hnone "Invalid data" eq_refl) as [_ Hverify].
  split_and!.
  - exact Hextract.
  - exact (Hnormalize ["mp3s"; "a.wav"] Demo.world 0 Demo.tree eq_refl).
  - exact (Hverify ["mp3s"; "sub"; "broken.mp3"] Demo.world 1 Demo.tree
             eq_refl).
Defined.

(** C2, counterexample: a blob that holds exactly one well-formed JSON
    object, between two lines of brace-free text.  A string value of the
    object holds a closing brace on the object's first line, the scan stops
    on that line, and the parser is handed a truncated text. *)
Lemma extract_json_block_brace_in_string :
  Cases.brace_blob
  = ("frame=1" +:+ nl) +:+ Cases.brace_object +:+ (nl +:+ "done")
  ∧ contains lbrace ("frame=1" +:+ nl) = false
  ∧ contains rbrace ("frame=1" +:+ nl) = false
  ∧ contains lbrace (nl +:+ "done") = false
  ∧ contains rbrace (nl +:+ "done") = false
  ∧ extract_json_block Cases.brace_blob
    = Some ("{" +:+ dq +:+ "a" +:+ dq +:+ ": " +:+ dq +:+ "}")
  ∧ extract_json_block Cases.brace_blob ≠ Some Cases.brace_object.
Proof. by vm_compute. Qed.

(** The same for an object with an object inside. *)
Lemma extract_json_block_nested_object :
  extract_json_block Cases.nested_blob
  = Some ("{" +:+ dq +:+ "a" +:+ dq +:+ ": {" +:+ nl
          +:+ dq +:+ "b" +:+ dq +:+ ": 1}")
  ∧ extract_json_block Cases.nested_blob ≠ Some Cases.nested_object.
Proof. by vm_compute. Qed.

(** ** The compliance check and the commands *)

Section commands.

Context `{Env}.

Implicit Types (s t u : string).

Lemma prefix_app s t : String.prefix s (s +:+ t) = true.
Proof.
  induction s as [|a s IH]; [by destruct t|].
  rewrite str_app_cons. cbn [String.prefix].
  destruct (ascii_dec a a); [done|congruence].
Qed.

Lemma is_infix_here s t : String.prefix s t = true → is_infix s t = true.
Proof. intros Hp. destruct t; cbn [is_infix]; by rewrite Hp. Qed.

Lemma is_infix_app s t u : is_infix s (t +:+ s +:+ u) = true.
Proof.
  induction t as [|a t IH].
  - rewrite str_app_nil_l. apply is_infix_here, prefix_app.
  - rewrite str_app_cons. cbn [is_infix]. rewrite IH. apply orb_true_r.
Qed.

Lemma is_infix_right s t u : is_infix s u = true → is_infix s (t +:+ u) = true.
Proof.
  intros Hu. induction t as [|a t IH]; [done|].
  rewrite str_app_cons. cbn [is_infix]. rewrite IH. apply orb_true_r.
Qed.

(** C1: for a measurement record that is not [None], the check is
    non-compliant exactly when the loudness is off target by more than the
    tolerance or the true peak is above the ceiling; a loudness violation
    alone gives the one loudness issue, a peak violation alone the one peak
    issue, both give the two issues in that order, and neither gives a
    compliant verdict without issues.  The comparisons are those of binary64
    floats, as in the program. *)
Theorem check_file_compliance_spec (data : Verify.Loudness) :
  let loud :=
    PrimFloat.ltb Verify.LUFS_TOLERANCE
      (PrimFloat.abs (PrimFloat.sub (Verify.lufs data) Verify.TARGET_LUFS)) in
  let high := PrimFloat.ltb Verify.TARGET_TP (Verify.peak data) in
  let compliant := (Verify.check_file_compliance (Some data)).1 in
  let issues := (Verify.check_file_compliance (Some data)).2 in
  (compliant = false ↔ loud = true ∨ high = true)
  ∧ (loud = true → high = false →
     issues = [Verify.lufs_issue (Verify.lufs data)])
  ∧ (loud = false → high = true →
     issues = [Verify.peak_issue (Verify.peak data)])
  ∧ (loud = true → high = true →
     issues = [Verify.lufs_issue (Verify.lufs data);
               Verify.peak_issue (Verify.peak data)])
  ∧ (loud = false → high = false → compliant = true ∧ issues = [])
  ∧ String.prefix "LUFS " (Verify.lufs_issue (Verify.lufs data)) = true
  ∧ String.prefix "Peak " (Verify.peak_issue (Verify.peak data)) = true.
Proof.
  intros loud high compliant issues.
  unfold compliant, issues, Verify.check_file_compliance.
  fold loud high.
  split_and!.
  - destruct loud, high; cbn; split; auto; by intros [|].
  - by intros -> ->.
  - by intros -> ->.
  - by intros -> ->.
  - by intros -> ->.
  - apply (prefix_app "LUFS ").
  - apply (prefix_app "Peak ").
Qed.


Lemma normalize_audio_calls input_file output_file ld w :
  calls (Normalize.normalize_audio input_file output_file ld w).2
  = calls w ++ [Normalize.normalize_cmd input_file output_file ld].
Proof.
  unfold Normalize.normalize_audio, try_except, bind, subprocess_run_checked,
    bind, subprocess_run.
  destruct (run_tool _ w) as [[rc err|] n]; cbn; [|done].
  by destruct (rc =? 0).
Qed.

Lemma analyze_loudness_calls input_file w :
  calls (Normalize.analyze_loudness input_file w).2
  = calls w ++ [Normalize.analyze_cmd input_file].
Proof.
  unfold Normalize.analyze_loudness, try_except, bind, subprocess_run.
  destruct (run_tool _ w) as [[rc err|] n]; cbn; [|done].
  unfold Normalize.parse_loudness.
  destruct (extract_json_block err) as [json_str|]; [|done].
  unfold bind, of_option. by destruct (json_loads json_str).
Qed.

Lemma analyze_file_calls file_path w :
  calls (Verify.analyze_file file_path w).2
  = calls w ++ [Verify.analyze_cmd file_path].
Proof.
  unfold Verify.analyze_file, try_except, bind, subprocess_run.
  destruct (run_tool _ w) as [[rc err|] n]; cbn; [|done].
  unfold Verify.parse_file.
  destruct (extract_json_block err) as [json_str|]; [|done].
  unfold bind, of_option. destruct (json_loads json_str) as [d|]; [|done].
  cbn. by destruct (Verify.loudness_of_dict d).
Qed.

(** C4 (amended): the command of the second pass has two modes, selected by
    the truth value of the measurement record.  Without a record, or with an
    empty one, the filter holds the three targets only; with a record that
    is not empty it holds the targets, the five measured values (the
    defaults where the record lacks them) and [linear=true].  In both modes
    the sample rate is 44100, the bitrate 192k, the output is overwritten,
    and this command is the one [normalize_audio] runs. *)
Theorem normalize_cmd_modes (input_file output_file : Path)
    (loudness_data : option (gmap string (pyval Other))) :
  let cmd := Normalize.normalize_cmd input_file output_file loudness_data in
  let targets :=
    "loudnorm=I=" +:+ repr_float Normalize.TARGET_LUFS
    +:+ ":TP=" +:+ repr_float Normalize.TARGET_TP
    +:+ ":LRA=" +:+ repr_float Normalize.TARGET_LRA in
  (∃ filter,
     cmd = [ "ffmpeg"; "-i"; path_str input_file; "-af"; filter;
             "-ar"; "44100"; "-b:a"; "192k"; "-y"; path_str output_file ]
     ∧ (loudness_data = None ∨ loudness_data = Some ∅ → filter = targets)
     ∧ (∀ d, loudness_data = Some d → d ≠ ∅ →
        filter =
          targets
          +:+ ":measured_I="
          +:+ py_format (dict_get d "input_i" (PStr "-99.0"))
          +:+ ":measured_TP="
          +:+ py_format (dict_get d "input_tp" (PStr "-99.0"))
          +:+ ":measured_LRA="
          +:+ py_format (dict_get d "input_lra" (PStr "0.0"))
          +:+ ":measured_thresh="
          +:+ py_format (dict_get d "input_thresh" (PStr "-99.0"))
          +:+ ":offset="
          +:+ py_format (dict_get d "target_offset" (PStr "0.0"))
          +:+ ":linear=true"))
  ∧ (∀ w,
       calls (Normalize.normalize_audio input_file output_file
                loudness_data w).2
       = calls w ++ [cmd]).
Proof.
  intros cmd targets. split; [|intros w; apply normalize_audio_calls].
  unfold cmd, Normalize.normalize_cmd, Normalize.truthy.
  destruct loudness_data as [d|]; [case_bool_decide as Hd|]; cbn [negb].
  - eexists. split_and!; [done| |].
    + by intros [?|[= ->]].
    + intros d' [= <-] _. cbn [default]. unfold targets. by str_norm.
  - subst d.
    eexists. split_and!; [done..|]. by intros d' [= <-].
  - eexists. split_and!; [done..|]. by intros d' [=].
Qed.

(** C8 (amended): each measurement runs one command, which asks the
    loudness filter for JSON output and sends the media to the null sink.
    The filter of the normalizer holds the target loudness, true peak and
    range; the filter of the verifier is [loudnorm=print_format=json], with
    no target. *)
Theorem measurement_invocations :
  (∀ input_file w,
     calls (Normalize.analyze_loudness input_file w).2
     = calls w ++ [Normalize.analyze_cmd input_file])
  ∧ (∀ file_path w,
       calls (Verify.analyze_file file_path w).2
       = calls w ++ [Verify.analyze_cmd file_path])
  ∧ (∀ input_file,
       ∃ filter,
         Normalize.analyze_cmd input_file
         = [ "ffmpeg"; "-i"; path_str input_file; "-af"; filter;
             "-f"; "null"; "-" ]
         ∧ String.prefix "loudnorm=" filter = true
         ∧ is_infix ("I=" +:+ repr_float Normalize.TARGET_LUFS) filter = true
         ∧ is_infix ("TP=" +:+ repr_float Normalize.TARGET_TP) filter = true
         ∧ is_infix ("LRA=" +:+ repr_float Normalize.TARGET_LRA) filter = true
         ∧ is_infix "print_format=json" filter = true)
  ∧ (∀ file_path,
       Verify.analyze_cmd file_path
       = [ "ffmpeg"; "-i"; path_str file_path; "-af";
           "loudnorm=print_format=json"; "-f"; "null"; "-" ]).
Proof.
  split_and!.
  - apply analyze_loudness_calls.
  - apply analyze_file_calls.
  - intros input_file. eexists. split; [reflexivity|]. split_and!.
    + apply (prefix_app "loudnorm=").
    + exact (is_infix_app ("I=" +:+ repr_float Normalize.TARGET_LUFS)
               "loudnorm=" _).
    + do 2 apply is_infix_right.
      exact (is_infix_app ("TP=" +:+ repr_float Normalize.TARGET_TP) ":" _).
    + do 4 apply is_infix_right.
      exact (is_infix_app ("LRA=" +:+ repr_float Normalize.TARGET_LRA) ":" _).
    + do 6 apply is_infix_right. done.
  - done.
Qed.

End commands.

(** C1, witness: a record that breaks both limits, and one that breaks
    none. *)
Lemma check_file_compliance_spec_witness :
  @Verify.check_file_compliance Demo.env
    (Some (Verify.mkLoudness (-20.0)%float (-0.5)%float 3.0%float))
  = (false, ["LUFS -20.0 (target: -16.0±0.5)";
             "Peak -0.5 dBTP exceeds -1.0 dBTP"])
  ∧ @Verify.check_file_compliance Demo.env
      (Some (Verify.mkLoudness (-16.0)%float (-1.5)%float 3.0%float))
    = (true, []).
Proof.
  pose proof (@check_file_compliance_spec Demo.env
                (Verify.mkLoudness (-20.0)%float (-0.5)%float 3.0%float))
    as (Hverdict & _ & _ & Hboth & _).
  pose proof (@check_file_compliance_spec Demo.env
                (Verify.mkLoudness (-16.0)%float (-1.5)%float 3.0%float))
    as (_ & _ & _ & _ & Hnone & _).
  split.
  - apply injective_projections.
    + apply Hverdict. left. reflexivity.
    + apply (Hboth eq_refl eq_refl).
  - apply injective_projections; apply (Hnone eq_refl eq_refl).
Defined.

(** C4, witness: a measured record, and no record. *)
Lemma normalize_cmd_modes_witness :
  @Normalize.normalize_cmd Demo.env ["mp3s"; "a.wav"] ["normalized"; "a.mp3"]
    (Some (Demo.measurement "-16.0" "-1.5"))
  = [ "ffmpeg"; "-i"; "mp3s/a.wav"; "-af";
      "loudnorm=I=-16.0:TP=-1.0:LRA=7.0:measured_I=-16.0:measured_TP=-1.5:measured_LRA=3.0:measured_thresh=-99.0:offset=0.0:linear=true";
      "-ar"; "44100"; "-b:a"; "192k"; "-y"; "normalized/a.mp3" ]
  ∧ @Normalize.normalize_cmd Demo.env ["mp3s"; "a.wav"]
      ["normalized"; "a.mp3"] None
    = [ "ffmpeg"; "-i"; "mp3s/a.wav"; "-af";
        "loudnorm=I=-16.0:TP=-1.0:LRA=7.0";
        "-ar"; "44100"; "-b:a"; "192k"; "-y"; "normalized/a.mp3" ].
Proof.
  split.
  - destruct (@normalize_cmd_modes Demo.env ["mp3s"; "a.wav"]
                ["normalized"; "a.mp3"]
                (Some (Demo.measurement "-16.0" "-1.5")))
      as [(filter & -> & _ & Hfull) _].
    rewrite (Hfull _ eq_refl); [reflexivity|]. by vm_compute.
  - destruct (@normalize_cmd_modes Demo.env ["mp3s"; "a.wav"]
                ["normalized"; "a.mp3"] None)
      as [(filter & -> & Hstatic & _) _].
    rewrite Hstatic; [reflexivity|]. by left.
Defined.

(** C4, counterexample: for an input whose name holds a brace pair, the
    diagnostic line that names it is where the scan starts and stops, the
    measurement record is the empty object, and with that record the
    command of the second pass holds the targets only. *)
Lemma normalize_cmd_empty_record :
  @Normalize.analyze_loudness Demo.env ["mp3s"; "take{}.wav"] Demo.world
  = (Ret (Some ∅),
     mkWorld Demo.tree
       [@Normalize.analyze_cmd Demo.env ["mp3s"; "take{}.wav"]])
  ∧ @Normalize.normalize_cmd Demo.env ["mp3s"; "take{}.wav"]
      ["normalized"; "take{}.mp3"] (Some ∅)
    = [ "ffmpeg"; "-i"; "mp3s/take{}.wav"; "-af";
        "loudnorm=I=-16.0:TP=-1.0:LRA=7.0";
        "-ar"; "44100"; "-b:a"; "192k"; "-y"; "normalized/take{}.mp3" ].
Proof. by vm_compute. Qed.

(** C8, counterexample: the filter of the verifier's measurement names no
    target. *)
Lemma verify_analyze_cmd_no_targets :
  Verify.analyze_cmd ["normalized"; "a.mp3"]
  = [ "ffmpeg"; "-i"; "normalized/a.mp3"; "-af";
      "loudnorm=print_format=json"; "-f"; "null"; "-" ]
  ∧ is_infix "I=" "loudnorm=print_format=json" = false
  ∧ is_infix "TP=" "loudnorm=print_format=json" = false
  ∧ is_infix "LRA=" "loudnorm=print_format=json" = false
  ∧ is_infix "-16" "loudnorm=print_format=json" = false.
Proof. by vm_compute. Qed.

(** ** Paths and discovery *)

Section discovery.

Implicit Types (p q r : Path) (x y z : string).

Lemma compare_refl x : String.compare x x = Eq.
Proof.
  destruct (String.compare x x) eqn:E; [done|..];
    pose proof (String.compare_antisym x x) as Ha; rewrite E in Ha; done.
Qed.

Lemma compare_lt_trans x y z :
  String.compare x y = Lt → String.compare y z = Lt →
  String.compare x z = Lt.
Proof.
  intros Hxy Hyz.
  assert (Hle : String.le x z).
  { transitivity y; unfold String.le, String.leb; by rewrite ?Hxy, ?Hyz. }
  unfold String.le, String.leb in Hle.
  destruct (String.compare x z) eqn:E; [|done..].
  apply String.compare_eq_iff in E as ->.
  rewrite String.compare_antisym, Hxy in Hyz. done.
Qed.

#[export] Instance path_le_total : Total path_le.
Proof.
  intros p. unfold path_le.
  induction p as [|x p IH]; intros [|y q]; cbn; auto.
  rewrite (String.compare_antisym y x).
  destruct (String.compare x y); cbn; auto.
Qed.

#[export] Instance path_le_trans : Transitive path_le.
Proof.
  intros p. unfold path_le.
  induction p as [|x p IH]; intros [|y q] [|z r]; cbn; try done.
  destruct (String.compare x y) eqn:Exy; [| |done].
  - apply String.compare_eq_iff in Exy as ->.
    destruct (String.compare y z); [apply IH|done..].
  - destruct (String.compare y z) eqn:Eyz; [| |done].
    + apply String.compare_eq_iff in Eyz as ->. by rewrite Exy.
    + by rewrite (compare_lt_trans _ _ _ Exy Eyz).
Qed.

#[export] Instance path_le_antisym : AntiSymm (=) path_le.
Proof.
  intros p. unfold path_le.
  induction p as [|x p IH]; intros [|y q]; cbn; try done.
  rewrite (String.compare_antisym y x).
  destruct (String.compare x y) eqn:Exy; cbn; try done.
  apply String.compare_eq_iff in Exy as ->. intros ??. f_equal. by apply IH.
Qed.

Lemma sorted_StronglySorted (l : list Path) :
  StronglySorted path_le (sorted l).
Proof. apply StronglySorted_merge_sort; apply _. Qed.

Lemma sorted_elem_of (l : list Path) p : p ∈ sorted l ↔ p ∈ l.
Proof. unfold sorted. by rewrite merge_sort_Permutation. Qed.



Lemma node_ind' (P : node → Prop) :
  P File →
  (∀ es, Forall (λ e, P e.2) es → P (Dir es)) →
  ∀ n, P n.
Proof.
  intros HF HD. fix IH 1. intros [|es]; [exact HF|].
  apply HD. induction es as [|[nm child] es IHes]; constructor.
  - apply IH.
  - apply IHes.
Qed.

Lemma walk_node_dir root es :
  walk_node root (Dir es)
  = (root, dirnames es, filenames es)
    :: flat_map (λ e, walk_node (root ++ [e.1]) e.2) es.
Proof.
  cbn [walk_node]. f_equal.
  induction es as [|[nm child] es IH]; [done|].
  cbn [flat_map fst snd]. by rewrite <- IH.
Qed.

Lemma in_filenames nm es : In nm (filenames es) ↔ In (nm, File) es.
Proof.
  unfold filenames. rewrite in_map_iff. split.
  - intros ([nm' n] & <- & [Hin Hn]%filter_In). by destruct n.
  - intros Hin. exists (nm, File). split; [done|]. by apply filter_In.
Qed.

Lemma reaches_file_inv n p : reaches File p n → p = [] ∧ n = File.
Proof. by inversion 1. Qed.

Lemma reaches_file_or_nil n m : reaches n [] m → n = m.
Proof. by inversion 1. Qed.

Lemma reaches_dir_inv es p n :
  reaches (Dir es) p n →
  (p = [] ∧ n = Dir es)
  ∨ ∃ nm child p', p = nm :: p' ∧ (nm, child) ∈ es ∧ reaches child p' n.
Proof. inversion 1; subst; [by left|right]. eauto 6. Qed.

Lemma audio_of_walk_node n :
  ∀ root p,
    In p (audio_of (walk_node root n)) ↔
    ∃ rel file, p = root ++ rel ++ [file]
                ∧ reaches n (rel ++ [file]) File
                ∧ has_audio_extension file = true.
Proof.
  induction n as [|es IH] using node_ind'; intros root p.
  - split; [done|]. intros (rel & file & _ & Hr & _).
    apply reaches_file_inv in Hr as [Hr _]. by destruct rel.
  - rewrite walk_node_dir. unfold audio_of. cbn [flat_map].
    rewrite in_app_iff, in_map_iff. split.
    + intros [(file & <- & [Hin Haudio]%filter_In)|Hin].
      * exists [], file. split_and!; [reflexivity| |done].
        apply in_filenames in Hin.
        apply (reaches_down es file File [] File); [|constructor].
        by apply list_elem_of_In.
      * apply in_flat_map in Hin as ([[r d] f] & Hin & Hp).
        apply in_flat_map in Hin as ([nm child] & Hin & Hw).
        cbn [fst snd] in Hw.
        pose proof (proj1 (Forall_forall _ _) IH _ (proj2 (list_elem_of_In _ _) Hin))
          as IHc.
        cbn [snd] in IHc.
        destruct (proj1 (IHc (root ++ [nm]) p)) as (rel & file & -> & Hr & Ha).
        { unfold audio_of. apply in_flat_map. by exists (r, d, f). }
        exists (nm :: rel), file. split_and!; [|  |done].
        -- by rewrite <- !app_assoc.
        -- apply (reaches_down es nm child); [|done].
           by apply list_elem_of_In.
    + intros (rel & file & -> & Hr & Ha).
      destruct rel as [|nm' rel]; cbn [app] in Hr;
        apply reaches_dir_inv in Hr
          as [[[=] _]|(nm & child & p' & [= <- <-] & Hin & Hc)].
      * left. apply reaches_file_or_nil in Hc as ->. exists file.
        split; [by rewrite app_nil_l|].
        apply filter_In. split; [|done].
        apply in_filenames. by apply list_elem_of_In.
      * right.
        pose proof (proj1 (Forall_forall _ _) IH _ Hin) as IHc.
        cbn [snd] in IHc.
        assert (Hp : In (root ++ (nm' :: rel) ++ [file])
                       (audio_of (walk_node (root ++ [nm']) child))).
        { apply IHc. exists rel, file. split_and!; [|done..].
          by rewrite <- !app_assoc. }
        unfold audio_of in Hp.
        apply in_flat_map in Hp as (t & Ht & Hp).
        apply in_flat_map. exists t. split; [|done].
        apply in_flat_map. exists (nm', child). split; [|done].
        by apply list_elem_of_In.
Qed.


(** C5 (amended): discovery returns exactly the files of the tree under the
    root whose name, in lower case, ends with one of the eight extensions
    (dot included), every such file and no other, and the list is sorted in
    the order of [Path] values, component by component.  Both programs use
    the same function. *)
Theorem find_audio_files_spec (top : Path) (tree : node) :
  (∀ p,
     p ∈ Normalize.find_audio_files top tree ↔
     ∃ dir rel file ext,
       fs_lookup top tree = Some dir
       ∧ p = top ++ rel ++ [file]
       ∧ reaches dir (rel ++ [file]) File
       ∧ In ext audio_extensions
       ∧ endswith (lower file) ext = true)
  ∧ StronglySorted path_le (Normalize.find_audio_files top tree)
  ∧ Verify.find_audio_files top tree = Normalize.find_audio_files top tree.
Proof.
  split_and!; [|apply sorted_StronglySorted|done].
  intros p. unfold Normalize.find_audio_files.
  rewrite sorted_elem_of, list_elem_of_In. fold (audio_of (os_walk top tree)).
  unfold os_walk. destruct (fs_lookup top tree) as [dir|].
  - rewrite audio_of_walk_node. split.
    + intros (rel & file & -> & Hr & (ext & ? & ?)%existsb_exists).
      by exists dir, rel, file, ext.
    + intros (dir' & rel & file & ext & [= <-] & -> & Hr & ? & ?).
      exists rel, file. split_and!; [done..|].
      apply existsb_exists. by exists ext.
  - split; [done|]. by intros (? & ? & ? & ? & [=] & _).
Qed.

(** C5, counterexample: with a file [a.mp3] next to a directory [a], the
    returned list is not in the order of the full path strings. *)
Lemma find_audio_files_not_string_sorted :
  map path_str (Normalize.find_audio_files ["mp3s"] Cases.sort_tree)
  = ["mp3s/a/b.mp3"; "mp3s/a.mp3"]
  ∧ String.leb "mp3s/a/b.mp3" "mp3s/a.mp3" = false
  ∧ ¬ Sorted str_le (Normalize.find_audio_files ["mp3s"] Cases.sort_tree).
Proof.
  split_and!; [by vm_compute..|].
  assert (Normalize.find_audio_files ["mp3s"] Cases.sort_tree
          = [["mp3s"; "a"; "b.mp3"]; ["mp3s"; "a.mp3"]]) as -> by (by vm_compute).
  intros Hs. apply Sorted_inv in Hs as [_ Hhd].
  apply HdRel_inv in Hhd. by vm_compute in Hhd.
Qed.

End discovery.

(** ** The file system and the path mapper *)

Section file_system.

Implicit Types (p rel : Path) (n : node) (es : list (string * node)).

Lemma relative_to_app base rel : relative_to (base ++ rel) base = Some rel.
Proof.
  induction base as [|b base IH]; [done|].
  cbn. by rewrite String.eqb_refl.
Qed.

Lemma relative_to_Some p base rel :
  relative_to p base = Some rel → p = base ++ rel.
Proof.
  revert p. induction base as [|b base IH]; intros p; cbn.
  - by intros [= ->].
  - destruct p as [|c p]; [done|].
    destruct (String.eqb_spec c b) as [->|]; [|done].
    intros Hrel. by rewrite (IH _ Hrel).
Qed.

Lemma parent_snoc p x : parent (p ++ [x]) = p.
Proof. apply removelast_last. Qed.

Lemma name_snoc p x : name (p ++ [x]) = x.
Proof. apply last_last. Qed.

Lemma with_suffix_name_stem nm suf :
  with_suffix_name nm suf = stem nm +:+ suf.
Proof.
  unfold with_suffix_name, stem. by destruct (String.eqb (suffix nm) "").
Qed.

Lemma with_suffix_named rel suf :
  name rel ≠ "" →
  with_suffix rel suf = Some (parent rel ++ [stem (name rel) +:+ suf]).
Proof.
  intros Hname. unfold with_suffix.
  destruct (String.eqb_spec (name rel) ""); [done|].
  by rewrite with_suffix_name_stem.
Qed.

Lemma lookup_set_entry_same nm n es :
  lookup_entry nm es = Some n → set_entry nm n es = es.
Proof.
  induction es as [|[k m] es IH]; [done|]. cbn.
  destruct (String.eqb k nm); [by intros [= ->]|].
  intros Hl. by rewrite (IH Hl).
Qed.

Lemma lookup_set_entry nm n es : lookup_entry nm (set_entry nm n es) = Some n.
Proof.
  induction es as [|[k m] es IH]; cbn.
  - by rewrite String.eqb_refl.
  - destruct (String.eqb k nm) eqn:E; cbn; by rewrite E.
Qed.

Lemma lookup_entry_fresh nm n es :
  lookup_entry nm es = None → lookup_entry nm (es ++ [(nm, n)]) = Some n.
Proof.
  induction es as [|[k m] es IH]; cbn.
  - by rewrite String.eqb_refl.
  - by destruct (String.eqb k nm).
Qed.

Lemma mkdir_p_fresh p : mkdir_p p (fresh_dirs p) = Some (fresh_dirs p).
Proof.
  induction p as [|c p IH]; [done|].
  cbn [mkdir_p fresh_dirs lookup_entry]. rewrite String.eqb_refl, IH.
  cbn [set_entry]. by rewrite String.eqb_refl.
Qed.

(** Creating the directories a second time changes nothing. *)
Lemma mkdir_p_idempotent p n n' :
  mkdir_p p n = Some n' → mkdir_p p n' = Some n'.
Proof.
  revert n n'. induction p as [|c p IH]; intros [|es] n'; cbn; try done.
  - by intros [= <-].
  - destruct (lookup_entry c es) as [child|] eqn:El.
    + destruct (mkdir_p p child) as [child'|] eqn:Em; [|done].
      intros [= <-]. cbn. rewrite lookup_set_entry, (IH _ _ Em).
      by rewrite (lookup_set_entry_same c child' (set_entry c child' es))
        by apply lookup_set_entry.
    + intros [= <-]. cbn.
      rewrite (lookup_entry_fresh _ _ _ El), mkdir_p_fresh.
      by rewrite lookup_set_entry_same by by apply lookup_entry_fresh.
Qed.

(** Below an existing entry every directory exists already. *)
Lemma mkdir_p_existing p x n :
  fs_lookup (p ++ [x]) n ≠ None → mkdir_p p n = Some n.
Proof.
  revert n. induction p as [|c p IH]; intros [|es]; cbn; try done.
  destruct (lookup_entry c es) as [child|] eqn:El; [|done].
  intros Hx. rewrite (IH _ Hx). by rewrite lookup_set_entry_same.
Qed.

Lemma world_eta w : mkWorld (fs w) (calls w) = w.
Proof. by destruct w. Qed.

Lemma create_output_path_eq source_dir output_dir rel w :
  name rel ≠ "" →
  Normalize.create_output_path (source_dir ++ rel) source_dir output_dir w =
    match mkdir_p (output_dir ++ parent rel) (fs w) with
    | Some tree' =>
        (Ret (output_dir ++ parent rel ++ [stem (name rel) +:+ ".mp3"]),
         mkWorld tree' (calls w))
    | None => (Raise OSError, w)
    end.
Proof.
  intros Hname. unfold Normalize.create_output_path, bind, of_option.
  rewrite relative_to_app. cbn [ret].
  rewrite (with_suffix_named _ _ Hname). cbn [ret].
  unfold mkdir_parents. rewrite app_assoc, parent_snoc.
  by destruct (mkdir_p _ _).
Qed.

(** C6: for an input path [source_dir ++ rel] with a file name, the
    mapper returns [output_dir / rel] with the suffix of the name replaced
    by [.mp3], creating the missing directories; a second call, in the world
    the first one leaves, returns the same path, does not raise and changes
    nothing.  The first call raises only when a file is in the way of a
    directory. *)
Theorem create_output_path_spec (source_dir output_dir rel : Path) (w : World) :
  name rel ≠ "" →
  let source_file := source_dir ++ rel in
  let output_path :=
    output_dir ++ parent rel ++ [stem (name rel) +:+ ".mp3"] in
  match mkdir_p (parent output_path) (fs w) with
  | Some tree' =>
      let w' := mkWorld tree' (calls w) in
      Normalize.create_output_path source_file source_dir output_dir w
      = (Ret output_path, w')
      ∧ Normalize.create_output_path source_file source_dir output_dir w'
        = (Ret output_path, w')
  | None =>
      Normalize.create_output_path source_file source_dir output_dir w
      = (Raise OSError, w)
  end.
Proof.
  intros Hname source_file output_path.
  unfold source_file, output_path.
  rewrite app_assoc, parent_snoc.
  rewrite (create_output_path_eq _ _ _ _ Hname).
  destruct (mkdir_p _ (fs w)) as [tree'|] eqn:Em; [|done].
  cbv zeta. rewrite (create_output_path_eq _ _ _ _ Hname).
  cbn [fs calls]. by rewrite (mkdir_p_idempotent _ _ _ Em), <- app_assoc.
Qed.

Context `{Env}.

(** C7: when the output path of a file exists before the file is
    processed, the turn of the loop adds one to the skipped counter, leaves
    the other counters alone, and returns the world as it was: no command
    is run and the file system is unchanged. *)
Theorem skip_existing_output (source_dir output_dir rel : Path)
    (c : Normalize.Counters) (w : World) :
  name rel ≠ "" →
  let input_file := source_dir ++ rel in
  let output_file :=
    output_dir ++ parent rel ++ [stem (name rel) +:+ ".mp3"] in
  path_exists output_file (fs w) = true →
  Normalize.process_file source_dir output_dir c input_file w
  = (Ret (Normalize.mkCounters (Normalize.successful c) (Normalize.failed c)
            (S (Normalize.skipped c))), w).
Proof.
  intros Hname input_file output_file Hexists.
  unfold Normalize.process_file, bind at 1, of_option.
  unfold input_file. rewrite relative_to_app. cbn [ret].
  unfold bind at 1. rewrite (create_output_path_eq _ _ _ _ Hname).
  unfold path_exists in Hexists. apply bool_decide_eq_true in Hexists.
  unfold output_file in Hexists. rewrite app_assoc in Hexists.
  rewrite (mkdir_p_existing _ _ _ Hexists), world_eta.
  unfold bind, exists_, path_exists.
  rewrite <- app_assoc in Hexists. by rewrite (bool_decide_true _ Hexists).
Qed.

End file_system.

(** C6, witness: the first source of the demo tree that has no output
    yet. *)
Lemma create_output_path_spec_witness :
  ∃ w',
    Normalize.create_output_path ["mp3s"; "sub"; "b.flac"] ["mp3s"]
      ["normalized"] Demo.world
    = (Ret ["normalized"; "sub"; "b.mp3"], w')
    ∧ path_exists ["normalized"; "sub"] (fs w') = true
    ∧ Normalize.create_output_path ["mp3s"; "sub"; "b.flac"] ["mp3s"]
        ["normalized"] w'
      = (Ret ["normalized"; "sub"; "b.mp3"], w').
Proof.
  assert (Hname : name ["sub"; "b.flac"] ≠ "") by discriminate.
  pose proof (create_output_path_spec ["mp3s"] ["normalized"]
                ["sub"; "b.flac"] Demo.world Hname) as Hspec.
  vm_compute in Hspec. destruct Hspec as [Hfirst Hsecond].
  eexists. split_and!; [exact Hfirst|reflexivity|exact Hsecond].
Defined.

(** C7, witness: the source of the demo tree whose output exists. *)
Lemma skip_existing_output_witness :
  @Normalize.process_file Demo.env ["mp3s"] ["normalized"]
    (Normalize.mkCounters 0 0 0) ["mp3s"; "a.wav"] Demo.world
  = (Ret (Normalize.mkCounters 0 0 1), Demo.world).
Proof.
  assert (Hname : name ["a.wav"] ≠ "") by discriminate.
  exact (@skip_existing_output Demo.env ["mp3s"] ["normalized"] ["a.wav"]
           (Normalize.mkCounters 0 0 0) Demo.world Hname eq_refl).
Defined.

(** ** The loops and the exit status *)

Section loops.

Context `{Env}.

Lemma bind_Ret {A B} (m : M A) (f : A → M B) w b w' :
  bind m f w = (Ret b, w') →
  ∃ a w1, m w = (Ret a, w1) ∧ f a w1 = (Ret b, w').
Proof.
  unfold bind. destruct (m w) as [[a|e|code] w1]; [|done..].
  intros Hf. by exists a, w1.
Qed.

Lemma ret_Ret {A} (a b : A) w w' : ret a w = (Ret b, w') → a = b ∧ w = w'.
Proof. by intros [= -> ->]. Qed.

Lemma bind_no_exit {A B} (m : M A) (f : A → M B) w :
  no_exit (m w) → (∀ a w1, no_exit (f a w1)) → no_exit (bind m f w).
Proof.
  unfold bind, no_exit. intros Hm Hf code.
  destruct (m w) as [[a|e|c] w1] eqn:E; cbn in *; [apply Hf|done|].
  by destruct (Hm c).
Qed.

Lemma of_option_no_exit {A} (o : option A) e w : no_exit (of_option o e w).
Proof. by destruct o. Qed.

Lemma try_except_no_exit {A} catches (m h : M A) w :
  no_exit (m w) → (∀ w1, no_exit (h w1)) → no_exit (try_except catches m h w).
Proof.
  unfold try_except, no_exit. intros Hm Hh code.
  destruct (m w) as [[a|e|c] w1] eqn:E; cbn in *; [done| |by destruct (Hm c)].
  destruct (catches e); [apply Hh|done].
Qed.

Lemma subprocess_run_no_exit cmd w : no_exit (subprocess_run cmd w).
Proof.
  unfold subprocess_run, no_exit.
  by destruct (run_tool cmd w) as [[rc err|] n].
Qed.

Lemma create_output_path_no_exit a b c w :
  no_exit (Normalize.create_output_path a b c w).
Proof.
  unfold Normalize.create_output_path.
  apply bind_no_exit; [apply of_option_no_exit|intros rel w1].
  apply bind_no_exit; [apply of_option_no_exit|intros renamed w2].
  apply bind_no_exit; [|done].
  unfold mkdir_parents, no_exit. by destruct (mkdir_p _ _).
Qed.

Lemma analyze_loudness_no_exit f w : no_exit (Normalize.analyze_loudness f w).
Proof.
  unfold Normalize.analyze_loudness.
  apply try_except_no_exit; [|done].
  apply bind_no_exit; [apply subprocess_run_no_exit|intros r w1].
  unfold Normalize.parse_loudness. destruct (extract_json_block _); [|done].
  apply bind_no_exit; [apply of_option_no_exit|done].
Qed.

Lemma normalize_audio_no_exit a b ld w :
  no_exit (Normalize.normalize_audio a b ld w).
Proof.
  unfold Normalize.normalize_audio.
  apply try_except_no_exit; [|done].
  apply bind_no_exit; [|done].
  unfold subprocess_run_checked.
  apply bind_no_exit; [apply subprocess_run_no_exit|intros r w1].
  by destruct (r.1 =? 0).
Qed.

Lemma process_file_no_exit src out c f w :
  no_exit (Normalize.process_file src out c f w).
Proof.
  unfold Normalize.process_file.
  apply bind_no_exit; [apply of_option_no_exit|intros rel w1].
  apply bind_no_exit; [apply create_output_path_no_exit|intros o w2].
  apply bind_no_exit; [done|intros already w3].
  destruct already; [done|].
  apply bind_no_exit; [apply analyze_loudness_no_exit|intros ld w4].
  apply bind_no_exit.
  { destruct (Normalize.truthy ld); [apply of_option_no_exit|done]. }
  intros lufs w5.
  apply bind_no_exit; [apply normalize_audio_no_exit|intros ok w6].
  by destruct ok.
Qed.

Lemma process_files_no_exit src out files c w :
  no_exit (Normalize.process_files src out files c w).
Proof.
  revert c w. induction files as [|f files IH]; intros c w; [done|].
  cbn [Normalize.process_files].
  apply bind_no_exit; [apply process_file_no_exit|auto].
Qed.

(** One turn adds one to exactly one counter. *)
Lemma process_file_counts src out c f w c' w' :
  Normalize.process_file src out c f w = (Ret c', w') →
  c' = Normalize.mkCounters (S (Normalize.successful c)) (Normalize.failed c)
         (Normalize.skipped c)
  ∨ c' = Normalize.mkCounters (Normalize.successful c)
           (S (Normalize.failed c)) (Normalize.skipped c)
  ∨ c' = Normalize.mkCounters (Normalize.successful c) (Normalize.failed c)
           (S (Normalize.skipped c)).
Proof.
  unfold Normalize.process_file.
  intros (rel & w1 & _ & Hrun)%bind_Ret.
  apply bind_Ret in Hrun as (o & w2 & _ & Hrun).
  apply bind_Ret in Hrun as (already & w3 & _ & Hrun).
  destruct already.
  { apply ret_Ret in Hrun as [<- _]. auto. }
  apply bind_Ret in Hrun as (ld & w4 & _ & Hrun).
  apply bind_Ret in Hrun as (lufs & w5 & _ & Hrun).
  apply bind_Ret in Hrun as (ok & w6 & _ & Hrun).
  destruct ok; apply ret_Ret in Hrun as [<- _]; auto.
Qed.

Lemma process_files_counts src out files c w c' w' :
  Normalize.process_files src out files c w = (Ret c', w') →
  total c' = (total c + length files)%nat.
Proof.
  revert c w. induction files as [|f files IH]; intros c w.
  - intros [<- _]%ret_Ret. cbn. lia.
  - cbn [Normalize.process_files].
    intros (c1 & w1 & Hone & Hrest)%bind_Ret.
    rewrite (IH _ _ Hrest).
    apply process_file_counts in Hone as [-> | [-> | ->]]; unfold total; cbn; lia.
Qed.

(** C10: each turn of the normalizer's loop that ends adds one to exactly
    one of the three counters, and at the end of a run the three counters
    add up to the number of files the run discovered, in batch mode and in
    single-file mode alike. *)
Theorem counters_partition :
  (∀ src out c f w c' w',
     Normalize.process_file src out c f w = (Ret c', w') →
     c' = Normalize.mkCounters (S (Normalize.successful c))
            (Normalize.failed c) (Normalize.skipped c)
     ∨ c' = Normalize.mkCounters (Normalize.successful c)
              (S (Normalize.failed c)) (Normalize.skipped c)
     ∨ c' = Normalize.mkCounters (Normalize.successful c)
              (Normalize.failed c) (S (Normalize.skipped c)))
  ∧ (∀ base w c w',
       Normalize.main base [] w = (Ret c, w') →
       (Normalize.successful c + Normalize.skipped c + Normalize.failed c)%nat
       = length (Normalize.find_audio_files (joinpath base "mp3s") (fs w)))
  ∧ (∀ base file_path rest w c w',
       Normalize.main base (file_path :: rest) w = (Ret c, w') →
       (Normalize.successful c + Normalize.skipped c + Normalize.failed c)%nat
       = length (Normalize.search_single_file file_path
                   (joinpath base "mp3s") (fs w))).
Proof.
  split_and!.
  - apply process_file_counts.
  - intros base w c w'. unfold Normalize.main.
    intros (found & w1 & [= <- <-] & Hrun)%bind_Ret.
    destruct (path_exists _ _); [|done]. cbn [negb] in Hrun.
    apply bind_Ret in Hrun as (files & w2 & Hfiles & Hrun).
    apply bind_Ret in Hfiles as (tree & w3 & [= <- <-] & [= <- <-]).
    case_bool_decide; [done|].
    by apply process_files_counts in Hrun.
  - intros base file_path rest w c w'. unfold Normalize.main.
    intros (found & w1 & [= <- <-] & Hrun)%bind_Ret.
    destruct (path_exists _ _); [|done]. cbn [negb] in Hrun.
    apply bind_Ret in Hrun as (files & w2 & Hfiles & Hrun).
    destruct (has_audio_extension file_path); [|done]. cbn [negb] in Hfiles.
    apply bind_Ret in Hfiles as (tree & w3 & [= <- <-] & Hfiles).
    destruct (bool_decide_reflect
                (Normalize.search_single_file file_path (joinpath base "mp3s")
                   (fs w) = [])) as [Hnone|Hsome]; [done|].
    apply ret_Ret in Hfiles as [<- <-].
    rewrite bool_decide_false in Hrun by done.
    by apply process_files_counts in Hrun.
Qed.


Lemma no_exit_status {A} (r : outcome A * World) :
  no_exit r →
  (∃ a, r.1 = Ret a ∧ exit_status r.1 = 0)
  ∨ (∃ e, r.1 = Raise e ∧ exit_status r.1 = 1).
Proof.
  destruct r as [[a|e|code] w]; cbn; intros Hne; [eauto..|].
  by destruct (Hne code).
Qed.

Lemma analyze_file_total f w : ∃ r w', Verify.analyze_file f w = (Ret r, w').
Proof.
  unfold Verify.analyze_file, try_except, bind, subprocess_run.
  destruct (run_tool _ w) as [[rc err|] n]; cbn; [|by eauto].
  unfold Verify.parse_file.
  destruct (extract_json_block err) as [json_str|]; [|by eauto].
  unfold bind, of_option. destruct (json_loads json_str) as [d|]; [|by eauto].
  cbn. destruct (Verify.loudness_of_dict d); by eauto.
Qed.

Lemma check_one_total target t f w :
  relative_to f target ≠ None →
  ∃ t' w', Verify.check_one target t f w = (Ret t', w').
Proof.
  intros Hrel. unfold Verify.check_one, bind at 1, of_option.
  destruct (relative_to f target) as [rel|]; [|done]. cbn [ret].
  unfold bind. destruct (analyze_file_total f w) as (r & w1 & ->).
  destruct (Verify.check_file_compliance r) as [ok issues].
  destruct r as [data|]; [destruct ok|]; by eauto.
Qed.

Lemma check_files_total target files t w :
  Forall (λ f, relative_to f target ≠ None) files →
  ∃ t' w', Verify.check_files target files t w = (Ret t', w').
Proof.
  intros Hfiles. revert t w.
  induction Hfiles as [|f files Hf _ IH]; intros t w; [by eexists _, _|].
  cbn [Verify.check_files]. unfold bind.
  destruct (check_one_total target t f w Hf) as (t1 & w1 & ->). apply IH.
Qed.

Lemma walk_node_roots n :
  ∀ top t, In t (walk_node top n) → ∃ rel, t.1.1 = top ++ rel.
Proof.
  induction n as [|es IH] using node_ind'; intros top t; [done|].
  rewrite walk_node_dir. intros [<-|Hin].
  - exists []. by rewrite app_nil_r.
  - apply in_flat_map in Hin as ([nm child] & Hin & Ht).
    pose proof (proj1 (Forall_forall _ _) IH _
                  (proj2 (list_elem_of_In _ _) Hin)) as IHc.
    destruct (IHc _ _ Ht) as [rel ->]. exists (nm :: rel).
    by rewrite <- app_assoc.
Qed.

Lemma os_walk_roots top tree t :
  In t (os_walk top tree) → ∃ rel, t.1.1 = top ++ rel.
Proof.
  unfold os_walk. destruct (fs_lookup top tree); [|done].
  apply walk_node_roots.
Qed.

Lemma relative_to_under top rel : relative_to (top ++ rel) top ≠ None.
Proof. by rewrite relative_to_app. Qed.

Lemma find_audio_files_under top tree :
  Forall (λ f, relative_to f top ≠ None) (Verify.find_audio_files top tree).
Proof.
  apply Forall_forall. intros p. unfold Verify.find_audio_files.
  rewrite sorted_elem_of, list_elem_of_In, in_flat_map.
  intros ([[root dirs] files] & Hwalk & Hp).
  apply os_walk_roots in Hwalk as [rel Hroot]. cbn in Hroot. subst root.
  apply in_map_iff in Hp as (file & <- & _).
  unfold joinpath. rewrite <- app_assoc. apply relative_to_under.
Qed.

Lemma search_single_file_under matches top tree :
  Forall (λ f, relative_to f top ≠ None)
    (Verify.search_single_file matches top tree).
Proof.
  apply Forall_forall. intros p. unfold Verify.search_single_file.
  rewrite list_elem_of_omap.
  intros ([[root dirs] files] & Hwalk%list_elem_of_In & Hp).
  apply os_walk_roots in Hwalk as [rel Hroot]. cbn in Hroot. subst root.
  destruct (List.find _ files) as [file|]; [|done].
  injection Hp as <-. unfold joinpath. rewrite <- app_assoc.
  apply relative_to_under.
Qed.

End loops.

(** ** The summary of the verifier *)

Section counting.

Context {A : Type}.
Implicit Types (P Q R : A → bool) (l : list A).

Lemma filter_length_zero P l :
  length (List.filter P l) = 0%nat ↔ ∀ x, In x l → P x = false.
Proof.
  induction l as [|x l IH]; cbn; [done|].
  destruct (P x) eqn:E; cbn.
  - split; [done|]. intros Hall. specialize (Hall x (or_introl eq_refl)).
    congruence.
  - rewrite IH. split; [|by auto]. intros Hall y [<-|Hy]; auto.
Qed.

Lemma filter_length_pos P l :
  (0 < length (List.filter P l))%nat ↔ ∃ x, In x l ∧ P x = true.
Proof.
  induction l as [|x l IH]; cbn.
  - split; [lia|]. by intros (? & [] & _).
  - destruct (P x) eqn:E; cbn.
    + split; [|lia]. intros _. exists x. auto.
    + rewrite IH. split.
      * intros (y & ? & ?). exists y. auto.
      * intros (y & [<-|Hy] & HP); [congruence|]. by exists y.
Qed.

Lemma filter_length_partition P Q R l :
  (∀ x, (P x, Q x, R x) = (true, false, false)
        ∨ (P x, Q x, R x) = (false, true, false)
        ∨ (P x, Q x, R x) = (false, false, true)) →
  length l
  = (length (List.filter P l) + length (List.filter Q l)
     + length (List.filter R l))%nat.
Proof.
  intros Hone. induction l as [|x l IH]; cbn; [done|].
  destruct (Hone x) as [[= -> -> ->]|[[= -> -> ->]|[= -> -> ->]]]; cbn; lia.
Qed.

End counting.

(** Case analysis on the first decision of the goal. *)
Ltac goal_bool_decide :=
  match goal with
  | |- context [@bool_decide ?P ?d] => destruct (@bool_decide P d)
  end.

Section verifier_loop.

Context `{Env}.

Lemma check_one_Ret target t f w t1 w1 :
  Verify.check_one target t f w = (Ret t1, w1) →
  ∃ rel r,
    relative_to f target = Some rel
    ∧ Verify.analyze_file f w = (Ret r, w1)
    ∧ Verify.compliant_files t1
      = (Verify.compliant_files t + length (List.filter is_compliant [r]))%nat
    ∧ length (Verify.failed_files t1)
      = (length (Verify.failed_files t) + length (List.filter is_null [r]))%nat
    ∧ length (Verify.non_compliant_files t1)
      = (length (Verify.non_compliant_files t)
         + length (List.filter is_violation [r]))%nat.
Proof.
  unfold Verify.check_one.
  intros (rel & w0 & Hrel & Hrun)%bind_Ret.
  destruct (relative_to f target) as [rel'|]; [|done].
  apply ret_Ret in Hrel as [-> <-].
  apply bind_Ret in Hrun as (r & w2 & Hr & Hrun).
  exists rel, r.
  destruct (Verify.check_file_compliance r) as [ok issues] eqn:Ec.
  assert (Hok : is_compliant r = ok) by (unfold is_compliant; by rewrite Ec).
  cbn [List.filter]. unfold is_violation. rewrite Hok.
  destruct r as [data|]; cbn [is_null negb andb].
  - destruct ok; apply ret_Ret in Hrun as [<- <-]; cbn;
      rewrite ?length_app; cbn; split_and!; try done; lia.
  - injection Ec as <- <-. apply ret_Ret in Hrun as [<- <-]. cbn.
    rewrite ?length_app. cbn. split_and!; try done; lia.
Qed.

Lemma check_files_counts target files t w t' w' :
  Verify.check_files target files t w = (Ret t', w') →
  length (Verify.records files w) = length files
  ∧ Verify.compliant_files t'
    = (Verify.compliant_files t
       + length (List.filter is_compliant (Verify.records files w)))%nat
  ∧ length (Verify.failed_files t')
    = (length (Verify.failed_files t)
       + length (List.filter is_null (Verify.records files w)))%nat
  ∧ length (Verify.non_compliant_files t')
    = (length (Verify.non_compliant_files t)
       + length (List.filter is_violation (Verify.records files w)))%nat.
Proof.
  revert t w. induction files as [|f files IH]; intros t w.
  - intros [<- _]%ret_Ret. cbn. split_and!; lia.
  - cbn [Verify.check_files Verify.records].
    intros (t1 & w1 & Hone & Hrest)%bind_Ret.
    apply check_one_Ret in Hone as (rel & r & _ & -> & Hc & Hf & Hn).
    destruct (IH _ _ Hrest) as (Hlen & Hc' & Hf' & Hn').
    cbn [length List.filter] in *.
    destruct (is_compliant r), (is_null r), (is_violation r);
      cbn [length] in *; split_and!; lia.
Qed.

Lemma records_partition (recs : list (option Verify.Loudness)) :
  length recs
  = (length (List.filter is_compliant recs)
     + length (List.filter is_null recs)
     + length (List.filter is_violation recs))%nat.
Proof.
  apply filter_length_partition. intros [data|]; [|by auto].
  unfold is_violation. cbn [is_null negb andb].
  destruct (is_compliant (Some data)); auto.
Qed.

Lemma main_report base argv w report w' :
  Verify.main base argv w = (Ret report, w') →
  ∃ target_dir,
    Verify.check_files target_dir (Verify.normalized_files report)
      (Verify.mkTally 0 [] []) w
    = (Ret (Verify.tally report), w')
    ∧ Verify.files_at_target report
      = Verify.all_at_target (Verify.normalized_files report)
          (Verify.tally report)
    ∧ Verify.files_ready report
      = Verify.all_ready (Verify.normalized_files report)
          (Verify.tally report).
Proof.
  unfold Verify.main.
  generalize (bool_decide ("--source" ∈ argv)). intros check_source.
  set (target_dir := if check_source then _ else _).
  generalize (if check_source then Verify.remove_first "--source" argv
              else argv).
  intros argv'.
  intros (found & w1 & [= <- <-] & Hrun)%bind_Ret.
  destruct (path_exists target_dir (fs w)); [|done]. cbn [negb] in Hrun.
  apply bind_Ret in Hrun as (tree & w2 & [= <- <-] & Hrun).
  apply bind_Ret in Hrun as ([src files] & w3 & Hfound & Hrun).
  assert (w3 = w) as ->.
  { destruct argv' as [|file_path rest].
    - by destruct check_source; apply ret_Ret in Hfound as [_ <-].
    - destruct (has_audio_extension file_path); [|done].
      cbn [negb] in Hfound.
      revert Hfound. goal_bool_decide; [done|].
      by intros [_ <-]%ret_Ret. }
  cbn [fst snd] in Hrun. revert Hrun. goal_bool_decide; [done|].
  intros (t & w4 & Hloop & [<- <-]%ret_Ret)%bind_Ret.
  by exists target_dir.
Qed.

End verifier_loop.

Section verifier_summary.

Context `{Env}.

(** C3 (amended): the compliance result of a [None] record is
    non-compliant with the single issue [Failed to analyze file].  In every
    run of the verifier that reaches its summary, each file has one record,
    the compliant count is the number of compliant records and the failed
    list has one entry per [None] record, so a file whose record is [None]
    is never counted compliant, and the final all-files-ready test fails as
    soon as one record is [None].  The all-files-at-target-loudness test
    leaves the failed files out of its denominator: it holds exactly when
    some file was measured and every measured file is compliant. *)
Theorem null_record_summary :
  Verify.check_file_compliance None = (false, ["Failed to analyze file"])
  ∧ ∀ base argv w report w',
      Verify.main base argv w = (Ret report, w') →
      let recs := Verify.records (Verify.normalized_files report) w in
      length recs = length (Verify.normalized_files report)
      ∧ Verify.compliant_files (Verify.tally report)
        = length (List.filter is_compliant recs)
      ∧ length (Verify.failed_files (Verify.tally report))
        = length (List.filter is_null recs)
      ∧ (In None recs → Verify.files_ready report = false)
      ∧ (Verify.files_at_target report = true ↔
         (∃ r, In r recs ∧ r ≠ None)
         ∧ (∀ r, In r recs → r ≠ None → is_compliant r = true)).
Proof.
  split; [done|]. intros base argv w report w' Hmain recs.
  apply main_report in Hmain as (target_dir & Hloop & -> & ->).
  apply check_files_counts in Hloop as (Hlen & Hc & Hf & _).
  fold recs in Hlen, Hc, Hf. cbn [Verify.compliant_files Verify.failed_files
    length Nat.add] in Hc, Hf.
  pose proof (records_partition recs) as Hpart.
  split_and!; [done..| |].
  - intros Hnull. unfold Verify.all_ready. apply Z.eqb_neq.
    assert (0 < length (List.filter is_null recs))%nat
      by (apply filter_length_pos; by exists None).
    lia.
  - unfold Verify.all_at_target.
    rewrite andb_true_iff, Z.eqb_eq, Z.ltb_lt.
    assert (Hzero : length (List.filter is_violation recs) = 0%nat ↔
                    ∀ r, In r recs → r ≠ None → is_compliant r = true).
    { rewrite filter_length_zero. unfold is_violation.
      split; intros Hall r Hr.
      - intros Hsome. specialize (Hall r Hr).
        destruct r as [data|]; [|done]. cbn [is_null negb andb] in Hall.
        by destruct (is_compliant (Some data)).
      - destruct r as [data|]; [|done]. cbn [is_null negb andb].
        by rewrite (Hall _ Hr). }
    rewrite <- Hzero. split.
    + intros [Heq Hpos]. split; [|lia].
      assert (Hsome : (0 < length (List.filter is_compliant recs))%nat) by lia.
      apply filter_length_pos in Hsome as (r & Hr & Hok).
      exists r. split; [done|]. by intros ->.
    + intros [(r & Hr & Hsome) Hk]. split; [lia|].
      assert (0 < length (List.filter is_compliant recs))%nat; [|lia].
      apply filter_length_pos. exists r. split; [done|].
      by apply Hzero.
Qed.

End verifier_summary.

(** C3, witness: a normalized tree with one file that cannot be measured. *)
Lemma null_record_summary_witness :
  ∃ report w',
    @Verify.main Demo.env [] [] (mkWorld Demo.normalized_tree [])
    = (Ret report, w')
    ∧ In None (@Verify.records Demo.env (Verify.normalized_files report)
                 (mkWorld Demo.normalized_tree []))
    ∧ Verify.files_ready report = false.
Proof.
  destruct (@Verify.main Demo.env [] [] (mkWorld Demo.normalized_tree []))
    as [[report| |] w'] eqn:Hmain; [|by vm_compute in Hmain..].
  exists report, w'.
  destruct (@null_record_summary Demo.env) as [_ Hrun].
  destruct (Hrun _ _ _ _ _ Hmain) as (_ & _ & _ & Hready & _).
  assert (Hnull : In None (@Verify.records Demo.env
                             (Verify.normalized_files report)
                             (mkWorld Demo.normalized_tree []))).
  { vm_compute in Hmain. injection Hmain as <- _. vm_compute. by left. }
  split_and!; [done|exact Hnull|exact (Hready Hnull)].
Defined.

(** C3, counterexample: in the same run the record of the first file is
    [None], and the all-files-at-target-loudness test of the summary holds
    all the same. *)
Lemma failed_file_all_at_target :
  (@Verify.main Demo.env [] [] (mkWorld Demo.normalized_tree [])).1
  = Ret (Verify.mkReport []
           [["normalized"; "broken.mp3"]; ["normalized"; "good.mp3"]]
           (Verify.mkTally 1 [] ["broken.mp3"]) true false)
  ∧ @Verify.records Demo.env
      [["normalized"; "broken.mp3"]; ["normalized"; "good.mp3"]]
      (mkWorld Demo.normalized_tree [])
    = [None;
       Some (Verify.mkLoudness (-16.0)%float (-1.5)%float 3.0%float)].
Proof. by vm_compute. Qed.

(** C10, witness: the demo tree, with one source already normalized, one
    that normalizes and one on which the tool fails. *)
Lemma counters_partition_witness :
  (@Normalize.main Demo.env [] [] Demo.world).1
  = Ret (Normalize.mkCounters 1 1 1)
  ∧ length (Normalize.find_audio_files ["mp3s"] Demo.tree) = 3%nat.
Proof.
  destruct (@Normalize.main Demo.env [] [] Demo.world)
    as [[c| |] w'] eqn:Hmain; [|by vm_compute in Hmain..].
  destruct (@counters_partition Demo.env) as (_ & Hbatch & _).
  pose proof (Hbatch [] Demo.world c w' Hmain) as Hsum.
  vm_compute in Hmain. injection Hmain as <- _.
  split; [reflexivity|]. symmetry. exact Hsum.
Defined.

(** The exit status of the two programs on the demo trees: a run with a
    failed file ends with 0, a missing root and a request for a file that
    is not audio end with 1. *)
Lemma exit_status_examples :
  exit_status (@Normalize.main Demo.env [] [] Demo.world).1 = 0
  ∧ exit_status (@Normalize.main Demo.env ["elsewhere"] [] Demo.world).1 = 1
  ∧ exit_status (@Normalize.main Demo.env [] ["notes.txt"] Demo.world).1 = 1
  ∧ exit_status (@Normalize.main Demo.env [] ["zz.mp3"] Demo.world).1 = 1
  ∧ exit_status
      (@Verify.main Demo.env [] [] (mkWorld Demo.normalized_tree [])).1 = 0
  ∧ exit_status
      (@Verify.main Demo.env [] ["--source"]
         (mkWorld Demo.normalized_tree [])).1 = 1
  ∧ exit_status (@Verify.main Demo.env [] ["zz.mp3"] Demo.world).1 = 1.
Proof. by vm_compute. Qed.

(** * Further properties *)

(** ** The scan of the diagnostic stream *)

Section extraction_more.

Implicit Types (s t u : string) (c : ascii).

Lemma contains_join c sep (L : list string) :
  contains c sep = false →
  Forall (λ l, contains c l = false) L →
  contains c (join sep L) = false.
Proof.
  intros Hsep HL. induction HL as [|l L Hl HL IH]; [done|].
  destruct L as [|l' L]; [done|].
  rewrite join_cons by done. by rewrite !contains_app, Hl, Hsep, IH.
Qed.

Lemma scan_data_nil_iff (L : list string) :
  scan_data false L [] = [] ↔ Forall (λ l, contains lbrace l = false) L.
Proof.
  split.
  - induction L as [|l L IH]; [done|]. cbn [scan_data].
    rewrite orb_false_r. destruct (contains lbrace l) eqn:El.
    + rewrite andb_true_r. destruct (contains rbrace l); [done|].
      destruct (scan_data_started_segment L ([] ++ [l])) as (B & C & _ & ->).
      done.
    + rewrite andb_false_r. intros HL. constructor; auto.
  - intros HL. rewrite <- (app_nil_r L). by rewrite scan_data_skip.
Qed.

Lemma lbrace_not_newline : contains lbrace nl = false.
Proof. reflexivity. Qed.

Lemma rbrace_not_newline : contains rbrace nl = false.
Proof. reflexivity. Qed.

(** X1: the scan finds no JSON block ([json_data] stays empty, the
    analysis returns [None] without calling the parser) exactly when the
    diagnostic stream holds no opening brace. *)
Theorem extract_json_block_none_iff blob :
  extract_json_block blob = None ↔ contains lbrace blob = false.
Proof.
  rewrite extract_json_block_eq. cbv zeta.
  case_bool_decide as Hnil.
  - split; [intros _|done].
    apply scan_data_nil_iff in Hnil.
    rewrite <- (join_split newline blob).
    by apply (contains_join lbrace nl).
  - split; [done|]. intros Hblob. destruct Hnil.
    apply scan_data_nil_iff. by apply contains_split.
Qed.

Lemma str_app_eq_app s1 s2 t1 t2 :
  s1 +:+ s2 = t1 +:+ t2 →
  (∃ m, t1 = s1 +:+ m ∧ s2 = m +:+ t2)
  ∨ (∃ m, s1 = t1 +:+ m ∧ t2 = m +:+ s2).
Proof.
  revert t1. induction s1 as [|a s1 IH]; intros t1.
  - rewrite str_app_nil_l. intros ->. left. by exists t1.
  - destruct t1 as [|b t1].
    + rewrite str_app_nil_l. intros <-. right. by exists (String a s1).
    + rewrite !str_app_cons. intros [= -> Heq].
      destruct (IH _ Heq) as [(m & -> & ->)|(m & -> & ->)];
        [left|right]; by exists m.
Qed.

Lemma find_decompose c s :
  contains c s = true →
  ∃ p t, s = p +:+ String c t ∧ contains c p = false.
Proof.
  induction s as [|a s IH]; [done|]. rewrite contains_cons.
  destruct (Ascii.eqb a c) eqn:E.
  - apply Ascii.eqb_eq in E as ->. intros _. by exists "", s.
  - cbn [orb]. intros (p & t & -> & Hp)%IH.
    exists (String a p), t. split; [done|]. by rewrite contains_cons, E.
Qed.

Lemma rfind_decompose c s :
  contains c s = true →
  ∃ u q, s = u +:+ String c q ∧ contains c q = false.
Proof.
  induction s as [|a s IH]; [done|]. rewrite contains_cons.
  destruct (contains c s) eqn:Es.
  - intros _. destruct (IH eq_refl) as (u & q & -> & Hq).
    by exists (String a u), q.
  - rewrite orb_false_r. intros ->%Ascii.eqb_eq. by exists "", s.
Qed.

(** What the slice between the first opening and the last closing brace
    is: nothing, or a text of the blob from a brace to a brace. *)
Lemma slice_shape s :
  contains lbrace s = true →
  let r := slice s (find lbrace s) (rfind rbrace s + 1) in
  (r = "" ∨ ∃ body, r = String lbrace (body +:+ String rbrace ""))
  ∧ ∃ p q, s = p +:+ r +:+ q.
Proof.
  intros Hl.
  destruct (contains rbrace s) eqn:Hr.
  2:{ cbv zeta. rewrite (rfind_none _ _ Hr).
      assert (slice s (find lbrace s) (-1 + 1) = "") as ->.
      { apply find_nonneg_iff in Hl. unfold slice, clamp.
        change (-1 + 1) with 0. change (0 <? 0) with false. cbv iota.
        destruct (Z.ltb_spec (find lbrace s) 0); [lia|].
        replace (Z.to_nat (_ - _)) with 0%nat by lia. apply substring_empty. }
      split; [by left|]. exists s, "". by rewrite str_app_nil_l, str_app_nil_r. }
  destruct (find_decompose _ _ Hl) as (p & t & Hs1 & Hp).
  destruct (rfind_decompose _ _ Hr) as (u & q & Hs2 & Hq).
  assert (Heq : p +:+ String lbrace t = u +:+ String rbrace q) by congruence.
  apply str_app_eq_app in Heq as [(m & -> & Hm)|(m & -> & Hm)].
  - (* the last closing brace comes after the first opening brace *)
    destruct m as [|a m].
    { rewrite str_app_nil_l in Hm. by injection Hm. }
    rewrite str_app_cons in Hm. injection Hm as <- ->.
    assert (Hobj : slice s (find lbrace s) (rfind rbrace s + 1)
                   = String lbrace (m +:+ String rbrace "")).
    { rewrite Hs1. rewrite <- (str_app_nil_l q) at 1 2 3.
      rewrite <- (str_app_cons rbrace "" q), <- str_app_assoc.
      rewrite <- (str_app_cons lbrace).
      by apply (slice_braces p m q). }
    cbv zeta. rewrite Hobj. split; [right; by exists m|].
    exists p, q. rewrite Hs1. by str_norm.
  - (* it comes before: the slice is empty *)
    assert (slice s (find lbrace s) (rfind rbrace s + 1) = "") as ->.
    { rewrite Hs2 at 3.
      rewrite (rfind_app_last _ _ _ Hq).
      rewrite Hs1, (find_app_first _ _ _ Hp).
      unfold slice, clamp. rewrite !str_length_app.
      set (a := String.length u). set (b := String.length m).
      destruct (Z.ltb_spec (Z.of_nat (a + b)) 0); [lia|].
      destruct (Z.ltb_spec (Z.of_nat a + 1) 0); [lia|].
      assert (b ≠ 0)%nat.
      { destruct m as [|x m]; [|done]. rewrite str_app_nil_l in Hm.
        by injection Hm. }
      replace (Z.to_nat (_ - _)) with 0%nat by lia. apply substring_empty. }
    split; [by left|]. exists s, "". by rewrite str_app_nil_l, str_app_nil_r.
Qed.

(** X2: the text the scan hands to the parser is a contiguous part of the
    diagnostic stream, and it is either empty or runs from an opening brace
    to a closing brace. *)
Theorem extract_json_block_shape blob s :
  extract_json_block blob = Some s →
  (s = "" ∨ ∃ body, s = String lbrace (body +:+ String rbrace ""))
  ∧ ∃ before after, blob = before +:+ s +:+ after.
Proof.
  rewrite extract_json_block_eq. cbv zeta.
  destruct (scan_data_segment (split newline blob))
    as (A & B & C & Hsplit & -> & Hhd).
  case_bool_decide as HB; [done|]. intros [= <-].
  destruct (join_segment nl A B C HB) as (X & Y & Hjoin).
  rewrite <- Hsplit in Hjoin. unfold nl in Hjoin at 1.
  rewrite join_split in Hjoin.
  destruct (slice_shape (join nl B)) as [Hshape (p & q & Hsub)].
  { apply contains_join_hd. auto. }
  split; [exact Hshape|].
  exists (X +:+ p), (q +:+ Y). rewrite Hjoin. rewrite Hsub at 1.
  by rewrite !str_app_assoc.
Qed.

Lemma split_app_newline s t :
  split newline (s +:+ String newline t) = split newline s ++ split newline t.
Proof.
  destruct (lines_decompose s) as (ls & x & -> & Hls & Hx).
  rewrite str_app_assoc.
  rewrite (split_lines_cat ls _ Hls), (split_lines_cat ls x Hls).
  by rewrite (split_line _ _ _ Hx), (split_single _ _ Hx), <- app_assoc.
Qed.

Lemma scan_stops_app started (L L' acc : list string) :
  scan_stops started L = true →
  scan_data started (L ++ L') acc = scan_data started L acc.
Proof.
  revert started acc. induction L as [|l L IH]; intros started acc; [done|].
  cbn [scan_stops scan_data app].
  destruct (contains rbrace l && (contains lbrace l || started)); [done|].
  apply IH.
Qed.

Lemma scan_no_stop started (L acc : list string) :
  scan_stops started L = false →
  Forall (λ l, contains rbrace l = false) acc →
  Forall (λ l, contains rbrace l = false) (scan_data started L acc).
Proof.
  revert started acc. induction L as [|l L IH]; intros started acc; [done|].
  cbn [scan_stops scan_data].
  destruct (contains rbrace l) eqn:Er.
  - cbn [andb]. destruct (contains lbrace l || started); [done|].
    intros Hstop Hacc. by apply IH.
  - cbn [andb]. intros Hstop Hacc. apply IH; [done|].
    destruct (contains lbrace l || started); [|done].
    apply Forall_app. split; [done|]. by constructor.
Qed.

Lemma slice_nonempty_rbrace s :
  slice s (find lbrace s) (rfind rbrace s + 1) ≠ "" →
  contains rbrace s = true.
Proof.
  intros Hne. destruct (contains rbrace s) eqn:Hr; [done|]. destruct Hne.
  rewrite (rfind_none _ _ Hr). unfold slice, clamp.
  change (-1 + 1) with 0. change (0 <? 0) with false. cbv iota.
  replace (Z.to_nat (_ - _)) with 0%nat by lia. apply substring_empty.
Qed.

(** X3: once the scan has found a block that is not empty, nothing that
    follows on later lines changes it: a second object further down the
    stream is ignored. *)
Theorem extract_json_block_first_block blob s tail :
  extract_json_block blob = Some s →
  s ≠ "" →
  extract_json_block (blob +:+ nl +:+ tail) = Some s.
Proof.
  change (blob +:+ nl +:+ tail) with (blob +:+ String newline tail).
  rewrite !extract_json_block_eq. cbv zeta.
  case_bool_decide as Hdata; [done|]. intros [= Hs] Hne.
  rewrite split_app_newline.
  assert (Hstop : scan_stops false (split newline blob) = true).
  { destruct (scan_stops false (split newline blob)) eqn:E; [done|].
    pose proof (scan_no_stop _ _ [] E (Forall_nil_2 _)) as Hall.
    apply (contains_join rbrace nl) in Hall; [|done].
    rewrite <- Hs in Hne. apply slice_nonempty_rbrace in Hne.
    congruence. }
  rewrite (scan_stops_app _ _ _ _ Hstop).
  rewrite bool_decide_false by done. by rewrite Hs.
Qed.

End extraction_more.

(** ** Commands, exceptions and exits *)

Section effects.

Context `{Env}.

(** X4: neither analysis ever raises or exits, whatever the tool does: it
    runs its one command and returns a record or [None], and it returns
    [None] when the tool cannot be started. *)
Theorem analyses_never_raise :
  (∀ input_file w,
     ∃ r,
       Normalize.analyze_loudness input_file w
       = (Ret r,
          mkWorld (run_tool (Normalize.analyze_cmd input_file) w).2
            (calls w ++ [Normalize.analyze_cmd input_file]))
       ∧ ((run_tool (Normalize.analyze_cmd input_file) w).1 = RunRaised →
          r = None))
  ∧ (∀ file_path w,
       ∃ r,
         Verify.analyze_file file_path w
         = (Ret r,
            mkWorld (run_tool (Verify.analyze_cmd file_path) w).2
              (calls w ++ [Verify.analyze_cmd file_path]))
         ∧ ((run_tool (Verify.analyze_cmd file_path) w).1 = RunRaised →
            r = None)).
Proof.
  split.
  - intros input_file w.
    destruct (run_tool (Normalize.analyze_cmd input_file) w)
      as [[rc err|] n] eqn:Hrun.
    + eexists. split; [by apply (normalize_analysis_result _ _ rc err n)|done].
    + exists None. split; [|done].
      unfold Normalize.analyze_loudness, try_except, bind, subprocess_run.
      by rewrite Hrun.
  - intros file_path w.
    destruct (run_tool (Verify.analyze_cmd file_path) w)
      as [[rc err|] n] eqn:Hrun.
    + eexists. split; [by apply (verify_analysis_result _ _ rc err n)|done].
    + exists None. split; [|done].
      unfold Verify.analyze_file, try_except, bind, subprocess_run.
      by rewrite Hrun.
Qed.

(** X5: [normalize_audio] runs its one command and returns [True] exactly
    when the tool ends with return code 0 and [False] for any other return
    code; when the tool cannot be started, the exception is not caught and
    leaves the function. *)
Theorem normalize_audio_outcome (input_file output_file : Path)
    (loudness_data : option (gmap string (pyval Other))) (w : World) :
  let cmd := Normalize.normalize_cmd input_file output_file loudness_data in
  let w' := mkWorld (run_tool cmd w).2 (calls w ++ [cmd]) in
  Normalize.normalize_audio input_file output_file loudness_data w =
    match (run_tool cmd w).1 with
    | Completed returncode _ => (Ret (returncode =? 0), w')
    | RunRaised => (Raise OSError, w')
    end.
Proof.
  intros cmd w'. unfold w'.
  unfold Normalize.normalize_audio, try_except, bind, subprocess_run_checked,
    bind, subprocess_run.
  fold cmd. destruct (run_tool cmd w) as [[rc err|] n]; cbn; [|done].
  by destruct (rc =? 0).
Qed.

Lemma create_output_path_calls a b c w p w' :
  Normalize.create_output_path a b c w = (Ret p, w') → calls w' = calls w.
Proof.
  unfold Normalize.create_output_path.
  intros (rel & w1 & Hrel & Hrun)%bind_Ret.
  destruct (relative_to a b); [|done]. apply ret_Ret in Hrel as [-> <-].
  apply bind_Ret in Hrun as (renamed & w2 & Hren & Hrun).
  destruct (with_suffix rel ".mp3"); [|done]. apply ret_Ret in Hren as [-> <-].
  apply bind_Ret in Hrun as (u & w3 & Hmk & [_ <-]%ret_Ret).
  unfold mkdir_parents in Hmk. destruct (mkdir_p _ _); [|done].
  by injection Hmk as _ <-.
Qed.

Lemma process_file_calls src out c f w c' w' :
  Normalize.process_file src out c f w = (Ret c', w') →
  (c' = Normalize.mkCounters (Normalize.successful c) (Normalize.failed c)
          (S (Normalize.skipped c))
   ∧ calls w' = calls w)
  ∨ ((c' = Normalize.mkCounters (S (Normalize.successful c))
             (Normalize.failed c) (Normalize.skipped c)
      ∨ c' = Normalize.mkCounters (Normalize.successful c)
               (S (Normalize.failed c)) (Normalize.skipped c))
     ∧ ∃ output_file loudness_data,
         calls w' = calls w ++
           [Normalize.analyze_cmd f;
            Normalize.normalize_cmd f output_file loudness_data]).
Proof.
  unfold Normalize.process_file.
  intros (rel & w1 & Hrel & Hrun)%bind_Ret.
  destruct (relative_to f src); [|done]. apply ret_Ret in Hrel as [_ <-].
  apply bind_Ret in Hrun as (o & w2 & Hout%create_output_path_calls & Hrun).
  apply bind_Ret in Hrun as (already & w3 & [= <- <-] & Hrun).
  destruct (path_exists o (fs w2)).
  { apply ret_Ret in Hrun as [<- <-]. by left. }
  right.
  apply bind_Ret in Hrun as (ld & w4 & Hld & Hrun).
  apply bind_Ret in Hrun as (lufs & w5 & Hlufs & Hrun).
  assert (w5 = w4) as ->.
  { destruct (Normalize.truthy ld).
    - destruct (py_float _); [|done]. by apply ret_Ret in Hlufs as [_ <-].
    - by apply ret_Ret in Hlufs as [_ <-]. }
  apply bind_Ret in Hrun as (ok & w6 & Hok & Hrun).
  assert (Hcalls : calls w6 = calls w ++
            [Normalize.analyze_cmd f; Normalize.normalize_cmd f o ld]).
  { pose proof (normalize_audio_calls f o ld w4) as H6. rewrite Hok in H6.
    pose proof (analyze_loudness_calls f w2) as H4. rewrite Hld in H4.
    cbn [snd] in H4, H6. rewrite H6, H4, Hout. by rewrite <- app_assoc. }
  destruct ok; apply ret_Ret in Hrun as [<- <-];
    (split; [auto|by exists o, ld]).
Qed.

Lemma process_files_calls src out files c w c' w' :
  Normalize.process_files src out files c w = (Ret c', w') →
  (length (calls w') + 2 * (Normalize.successful c + Normalize.failed c)
   = length (calls w)
     + 2 * (Normalize.successful c' + Normalize.failed c'))%nat.
Proof.
  revert c w. induction files as [|f files IH]; intros c w.
  - by intros [<- <-]%ret_Ret.
  - cbn [Normalize.process_files].
    intros (c1 & w1 & Hone & Hrest)%bind_Ret. apply IH in Hrest.
    apply process_file_calls in Hone
      as [[-> Hcalls]|[[-> | ->] (o & ld & Hcalls)]];
      rewrite Hcalls in Hrest; rewrite ?length_app in Hrest;
      cbn in Hrest |- *; lia.
Qed.

(** X6: a turn of the normalizer's loop that ends runs no command when it
    skips the file, and otherwise exactly two, the measurement and then the
    normalization of that file; so a run that reaches its summary has run
    twice as many commands as it counts successful and failed files. *)
Theorem normalizer_commands :
  (∀ src out c f w c' w',
     Normalize.process_file src out c f w = (Ret c', w') →
     (c' = Normalize.mkCounters (Normalize.successful c) (Normalize.failed c)
             (S (Normalize.skipped c))
      ∧ calls w' = calls w)
     ∨ ((c' = Normalize.mkCounters (S (Normalize.successful c))
                (Normalize.failed c) (Normalize.skipped c)
         ∨ c' = Normalize.mkCounters (Normalize.successful c)
                  (S (Normalize.failed c)) (Normalize.skipped c))
        ∧ ∃ output_file loudness_data,
            calls w' = calls w ++
              [Normalize.analyze_cmd f;
               Normalize.normalize_cmd f output_file loudness_data]))
  ∧ (∀ base argv w c w',
       Normalize.main base argv w = (Ret c, w') →
       length (calls w')
       = (length (calls w)
          + 2 * (Normalize.successful c + Normalize.failed c))%nat).
Proof.
  split; [apply process_file_calls|].
  intros base argv w c w'. unfold Normalize.main.
  intros (found & w1 & [= <- <-] & Hrun)%bind_Ret.
  destruct (path_exists _ _); [|done]. cbn [negb] in Hrun.
  apply bind_Ret in Hrun as (files & w2 & Hfiles & Hrun).
  assert (w2 = w) as ->.
  { destruct argv as [|file_path rest].
    - by apply bind_Ret in Hfiles as (tree & w3 & [= <- <-] & [= _ <-]).
    - destruct (has_audio_extension file_path); [|done].
      cbn [negb] in Hfiles.
      apply bind_Ret in Hfiles as (tree & w3 & [= <- <-] & Hfiles).
      revert Hfiles. goal_bool_decide; [done|]. by intros [_ <-]%ret_Ret. }
  revert Hrun. goal_bool_decide; [done|].
  intros Hrun%process_files_calls. cbn in Hrun. lia.
Qed.

Lemma bind_Exit {A B} (m : M A) (f : A → M B) w code w' :
  bind m f w = (Exit code, w') →
  m w = (Exit code, w')
  ∨ ∃ a w1, m w = (Ret a, w1) ∧ f a w1 = (Exit code, w').
Proof.
  unfold bind. destruct (m w) as [[a|e|c] w1]; [|done|].
  - intros Hf. right. by exists a, w1.
  - intros [= -> ->]. by left.
Qed.

(** X7: when either program ends through [sys.exit], its code is 0 or 1
    and the world is as it was: no command has been run and no directory
    created. *)
Theorem exits_leave_the_world :
  (∀ base argv w code w',
     Normalize.main base argv w = (Exit code, w') →
     w' = w ∧ (code = 0 ∨ code = 1))
  ∧ (∀ base argv w code w',
       Verify.main base argv w = (Exit code, w') →
       w' = w ∧ (code = 0 ∨ code = 1)).
Proof.
  split.
  - intros base argv w code w'. unfold Normalize.main.
    unfold bind at 1, exists_.
    destruct (path_exists _ _); [|intros [= <- <-]; auto]. cbn [negb].
    intros [Hfiles|(files & w1 & Hfiles & Hrun)]%bind_Exit.
    + destruct argv as [|file_path rest].
      * by apply bind_Exit in Hfiles as [[=]|(? & ? & [= <- <-] & [=])].
      * destruct (has_audio_extension file_path);
          [|injection Hfiles as <- <-; auto].
        cbn [negb] in Hfiles.
        apply bind_Exit in Hfiles as [[=]|(? & ? & [= <- <-] & Hfiles)].
        revert Hfiles. goal_bool_decide; [|done]. intros [= <- <-]. auto.
    + revert Hrun. goal_bool_decide.
      * intros [= <- <-]. split; [|auto].
        destruct argv as [|file_path rest].
        -- by apply bind_Ret in Hfiles as (? & ? & [= <- <-] & [= _ <-]).
        -- destruct (has_audio_extension file_path); [|done].
           cbn [negb] in Hfiles.
           apply bind_Ret in Hfiles as (? & ? & [= <- <-] & Hfiles).
           revert Hfiles. goal_bool_decide; [done|].
           by intros [_ <-]%ret_Ret.
      * intros Hloop.
        pose proof (process_files_no_exit (joinpath base "mp3s")
                      (joinpath base "normalized") files
                      (Normalize.mkCounters 0 0 0) w1 code) as Hno.
        rewrite Hloop in Hno. by destruct Hno.
  - intros base argv w code w'. unfold Verify.main.
    generalize (bool_decide ("--source" ∈ argv)). intros check_source.
    set (target_dir := if check_source then _ else _).
    generalize (if check_source then Verify.remove_first "--source" argv
                else argv).
    intros argv'.
    unfold bind at 1, exists_.
    destruct (path_exists _ _); [|intros [= <- <-]; auto]. cbn [negb].
    unfold bind at 1, read_fs.
    intros [Hfound|([src files] & w1 & Hfound & Hrun)]%bind_Exit.
    + destruct argv' as [|file_path rest].
      * by destruct check_source.
      * destruct (has_audio_extension file_path);
          [|injection Hfound as <- <-; auto].
        cbn [negb] in Hfound.
        revert Hfound. goal_bool_decide; [|done]. intros [= <- <-]. auto.
    + cbn [fst snd] in Hrun. revert Hrun. goal_bool_decide.
      * intros [= <- <-]. split; [|auto].
        destruct argv' as [|file_path rest].
        -- by destruct check_source; apply ret_Ret in Hfound as [_ <-].
        -- destruct (has_audio_extension file_path); [|done].
           cbn [negb] in Hfound.
           revert Hfound. goal_bool_decide; [done|].
           by intros [_ <-]%ret_Ret.
      * intros [Hloop|(t & w2 & _ & [=])]%bind_Exit.
        assert (Hunder : Forall (λ f, relative_to f target_dir ≠ None) files).
        { destruct argv' as [|file_path rest].
          - unfold target_dir.
            destruct check_source; apply ret_Ret in Hfound as [[= _ <-] _];
              apply find_audio_files_under.
          - destruct (has_audio_extension file_path); [|done].
            cbn [negb] in Hfound.
            revert Hfound. goal_bool_decide; [done|].
            intros [[= _ <-] _]%ret_Ret.
            destruct check_source; apply search_single_file_under. }
        destruct (check_files_total target_dir files
                    (Verify.mkTally 0 [] []) w1 Hunder) as (t & w2 & Ht).
        congruence.
Qed.

End effects.

(** X6, witness: the run on the demo tree, with one success and one
    failure, has run four commands. *)
Lemma normalizer_commands_witness :
  ∃ c w',
    @Normalize.main Demo.env [] [] Demo.world = (Ret c, w')
    ∧ length (calls w') = 4%nat.
Proof.
  destruct (@Normalize.main Demo.env [] [] Demo.world)
    as [[c| |] w'] eqn:Hmain; [|by vm_compute in Hmain..].
  exists c, w'. split; [done|].
  destruct (@normalizer_commands Demo.env) as [_ Hrun].
  rewrite (Hrun _ _ _ _ _ Hmain).
  vm_compute in Hmain. by injection Hmain as <- _.
Defined.

(** X7, witness: a request for a file that is not audio. *)
Lemma exits_leave_the_world_witness :
  ∃ code,
    @Normalize.main Demo.env [] ["notes.txt"] Demo.world
    = (Exit code, Demo.world)
    ∧ (code = 0 ∨ code = 1).
Proof.
  destruct (@Normalize.main Demo.env [] ["notes.txt"] Demo.world)
    as [[c|e|code] w'] eqn:Hmain; [by vm_compute in Hmain| by vm_compute in Hmain|].
  exists code.
  destruct (@exits_leave_the_world Demo.env) as [Hexit _].
  destruct (Hexit _ _ _ _ _ Hmain) as [-> Hcode]. by split.
Defined.

(** ** The verifier's run *)

Section verifier_more.

Context `{Env}.

Lemma filter_length_all {A} (P : A → bool) (l : list A) :
  length (List.filter P l) = length l ↔ ∀ x, In x l → P x = true.
Proof.
  induction l as [|x l IH]; cbn; [done|].
  pose proof (List.filter_length_le P l) as Hle.
  destruct (P x) eqn:E; cbn.
  - split.
    + intros [= Hl] y [<-|Hy]; [done|]. by apply IH.
    + intros Hall. f_equal. apply IH. auto.
  - split; [lia|]. intros Hall. specialize (Hall x (or_introl eq_refl)).
    congruence.
Qed.

Lemma main_report_files base argv w report w' :
  Verify.main base argv w = (Ret report, w') →
  Verify.normalized_files report ≠ [].
Proof.
  unfold Verify.main.
  generalize (bool_decide ("--source" ∈ argv)). intros check_source.
  set (target_dir := if check_source then _ else _).
  generalize (if check_source then Verify.remove_first "--source" argv
              else argv).
  intros argv'.
  intros (found & w1 & [= <- <-] & Hrun)%bind_Ret.
  destruct (path_exists target_dir (fs w)); [|done]. cbn [negb] in Hrun.
  apply bind_Ret in Hrun as (tree & w2 & [= <- <-] & Hrun).
  apply bind_Ret in Hrun as ([src files] & w3 & _ & Hrun).
  cbn [fst snd] in Hrun. revert Hrun.
  case_bool_decide as Hlen; [done|].
  intros (t & w4 & _ & [<- _]%ret_Ret)%bind_Ret. cbn.
  by destruct files.
Qed.

(** X8: a run of the verifier that reaches its summary has at least one
    file, and sorts every file into exactly one of its three tallies:
    compliant, non-compliant and failed add up to the number of files. *)
Theorem verifier_tally_partition base argv w report w' :
  Verify.main base argv w = (Ret report, w') →
  Verify.normalized_files report ≠ []
  ∧ (Verify.compliant_files (Verify.tally report)
     + length (Verify.non_compliant_files (Verify.tally report))
     + length (Verify.failed_files (Verify.tally report)))%nat
    = length (Verify.normalized_files report).
Proof.
  intros Hmain. split; [by apply main_report_files in Hmain|].
  apply main_report in Hmain as (target_dir & Hloop & _ & _).
  apply check_files_counts in Hloop as (Hlen & Hc & Hf & Hn).
  pose proof (records_partition
                (Verify.records (Verify.normalized_files report) w)) as Hp.
  cbn in Hc, Hf, Hn. lia.
Qed.

(** X9: the final all-files-ready test holds exactly when the record of
    every file is compliant (none is [None], none breaks a limit), and
    whenever it holds the all-files-at-target-loudness test holds too. *)
Theorem verifier_ready_iff base argv w report w' :
  Verify.main base argv w = (Ret report, w') →
  let recs := Verify.records (Verify.normalized_files report) w in
  (Verify.files_ready report = true ↔
   ∀ r, In r recs → is_compliant r = true)
  ∧ (Verify.files_ready report = true →
     Verify.files_at_target report = true).
Proof.
  intros Hmain recs.
  pose proof (main_report_files _ _ _ _ _ Hmain) as Hne.
  apply main_report in Hmain as (target_dir & Hloop & -> & ->).
  apply check_files_counts in Hloop as (Hlen & Hc & Hf & Hn).
  fold recs in Hlen, Hc, Hf, Hn.
  pose proof (records_partition recs) as Hp.
  cbn in Hc, Hf, Hn.
  assert (Hpos : (0 < length (Verify.normalized_files report))%nat).
  { destruct (Verify.normalized_files report); [done|cbn; lia]. }
  unfold Verify.all_ready, Verify.all_at_target. split.
  - rewrite Z.eqb_eq, <- filter_length_all. lia.
  - rewrite Z.eqb_eq, andb_true_iff, Z.eqb_eq, Z.ltb_lt. lia.
Qed.

Lemma analyze_file_world file_path w :
  (Verify.analyze_file file_path w).2
  = mkWorld (run_tool (Verify.analyze_cmd file_path) w).2
      (calls w ++ [Verify.analyze_cmd file_path]).
Proof.
  unfold Verify.analyze_file, try_except, bind, subprocess_run.
  destruct (run_tool _ w) as [[rc err|] n]; cbn; [|done].
  unfold Verify.parse_file.
  destruct (extract_json_block err) as [json_str|]; [|done].
  unfold bind, of_option. destruct (json_loads json_str) as [d|]; [|done].
  cbn. by destruct (Verify.loudness_of_dict d).
Qed.

Lemma check_files_calls target files t w t' w' :
  Verify.check_files target files t w = (Ret t', w') →
  calls w' = calls w ++ map Verify.analyze_cmd files.
Proof.
  revert t w. induction files as [|f files IH]; intros t w.
  - intros [_ <-]%ret_Ret. by rewrite app_nil_r.
  - cbn [Verify.check_files map].
    intros (t1 & w1 & Hone & Hrest)%bind_Ret.
    apply check_one_Ret in Hone as (rel & r & _ & Hr & _).
    rewrite (IH _ _ Hrest).
    pose proof (analyze_file_world f w) as Hw. rewrite Hr in Hw.
    cbn [snd] in Hw. rewrite Hw. cbn [calls]. by rewrite <- app_assoc.
Qed.

(** X10: a run of the verifier that reaches its summary has run exactly
    one command per file, the measurement of that file, in the order of the
    sorted file list. *)
Theorem verifier_commands base argv w report w' :
  Verify.main base argv w = (Ret report, w') →
  calls w' = calls w ++ map Verify.analyze_cmd (Verify.normalized_files report).
Proof.
  intros (target_dir & Hloop & _ & _)%main_report.
  by apply check_files_calls in Hloop.
Qed.

Lemma keeps_fs_bind {A B} (m : M A) (f : A → M B) :
  keeps_fs m → (∀ a, keeps_fs (f a)) → keeps_fs (bind m f).
Proof.
  intros Hm Hf w. unfold bind. specialize (Hm w).
  destruct (m w) as [[a|e|c] w1]; cbn in *; [|done..].
  by rewrite Hf.
Qed.

Lemma keeps_fs_ret {A} (a : A) : keeps_fs (ret a).
Proof. done. Qed.

Lemma keeps_fs_exit {A} code : keeps_fs (@sys_exit A code).
Proof. done. Qed.

Lemma keeps_fs_of_option {A} (o : option A) e : keeps_fs (of_option o e).
Proof. by destruct o. Qed.

Section quiet_tool.

Hypothesis tool_reads_only : ∀ cmd w, (run_tool cmd w).2 = fs w.

Lemma keeps_fs_analyze_file f : keeps_fs (Verify.analyze_file f).
Proof.
  intros w. rewrite analyze_file_world. cbn. apply tool_reads_only.
Qed.

Lemma keeps_fs_check_files target files t :
  keeps_fs (Verify.check_files target files t).
Proof.
  revert t. induction files as [|f files IH]; intros t; [done|].
  cbn [Verify.check_files]. apply keeps_fs_bind; [|done].
  unfold Verify.check_one.
  apply keeps_fs_bind; [apply keeps_fs_of_option|intros rel].
  apply keeps_fs_bind; [apply keeps_fs_analyze_file|intros r].
  destruct (Verify.check_file_compliance r) as [ok issues].
  destruct r; [destruct ok|]; done.
Qed.

(** X11: the verifier writes nothing itself: when the tool leaves the file
    system alone, the file system after [main] is the one before, however
    [main] ends. *)
Theorem verifier_reads_only base argv w :
  fs (Verify.main base argv w).2 = fs w.
Proof.
  revert w. change (keeps_fs (Verify.main base argv)).
  unfold Verify.main.
  generalize (bool_decide ("--source" ∈ argv)). intros check_source.
  generalize (if check_source then Verify.remove_first "--source" argv
              else argv).
  intros argv'.
  apply keeps_fs_bind; [done|intros found].
  destruct (negb found); [done|].
  apply keeps_fs_bind; [done|intros tree].
  apply keeps_fs_bind.
  - destruct argv' as [|file_path rest]; [by destruct check_source|].
    destruct (negb _); [done|]. by destruct (bool_decide _).
  - intros [src files]. destruct (bool_decide _); [done|].
    apply keeps_fs_bind; [apply keeps_fs_check_files|done].
Qed.

End quiet_tool.

Lemma remove_first_middle x (l1 l2 : list string) :
  x ∉ l1 → Verify.remove_first x (l1 ++ x :: l2) = l1 ++ l2.
Proof.
  induction l1 as [|y l1 IH]; cbn.
  - by rewrite String.eqb_refl.
  - intros [Hy Hl1]%not_elem_of_cons.
    destruct (String.eqb_spec y x); [done|]. by rewrite IH.
Qed.

(** X12: the [--source] flag may stand anywhere among the arguments: the
    run is the same as with the flag in front. *)
Theorem source_flag_anywhere base (before after : list string) w :
  "--source" ∉ before →
  Verify.main base (before ++ "--source" :: after) w
  = Verify.main base ("--source" :: before ++ after) w.
Proof.
  intros Hbefore. unfold Verify.main.
  rewrite !bool_decide_true by set_solver.
  rewrite (remove_first_middle _ _ _ Hbefore).
  by change (Verify.remove_first "--source" ("--source" :: before ++ after))
    with (before ++ after).
Qed.

End verifier_more.

(** X8, witness: the normalized demo tree. *)
Lemma verifier_tally_partition_witness :
  ∃ report w',
    @Verify.main Demo.env [] [] (mkWorld Demo.normalized_tree [])
    = (Ret report, w')
    ∧ (Verify.compliant_files (Verify.tally report)
       + length (Verify.non_compliant_files (Verify.tally report))
       + length (Verify.failed_files (Verify.tally report)))%nat
      = 2%nat.
Proof.
  destruct (@Verify.main Demo.env [] [] (mkWorld Demo.normalized_tree []))
    as [[report| |] w'] eqn:Hmain; [|by vm_compute in Hmain..].
  exists report, w'. split; [done|].
  destruct (@verifier_tally_partition Demo.env _ _ _ _ _ Hmain) as [_ ->].
  vm_compute in Hmain. by injection Hmain as <- _.
Defined.

(** X9, witness: a tree whose one file is compliant. *)
Lemma verifier_ready_iff_witness :
  ∃ report w',
    @Verify.main Demo.env [] [] (mkWorld Cases.ready_tree [])
    = (Ret report, w')
    ∧ Verify.files_ready report = true
    ∧ Verify.files_at_target report = true.
Proof.
  destruct (@Verify.main Demo.env [] [] (mkWorld Cases.ready_tree []))
    as [[report| |] w'] eqn:Hmain; [|by vm_compute in Hmain..].
  exists report, w'.
  destruct (@verifier_ready_iff Demo.env _ _ _ _ _ Hmain) as [_ Htarget].
  assert (Hready : Verify.files_ready report = true).
  { vm_compute in Hmain. by injection Hmain as <- _. }
  split_and!; [done|exact Hready|exact (Htarget Hready)].
Defined.

(** X10, witness: the normalized demo tree. *)
Lemma verifier_commands_witness :
  ∃ report w',
    @Verify.main Demo.env [] [] (mkWorld Demo.normalized_tree [])
    = (Ret report, w')
    ∧ calls w'
      = [ Verify.analyze_cmd ["normalized"; "broken.mp3"];
          Verify.analyze_cmd ["normalized"; "good.mp3"] ].
Proof.
  destruct (@Verify.main Demo.env [] [] (mkWorld Demo.normalized_tree []))
    as [[report| |] w'] eqn:Hmain; [|by vm_compute in Hmain..].
  exists report, w'. split; [done|].
  rewrite (@verifier_commands Demo.env _ _ _ _ _ Hmain).
  vm_compute in Hmain. by injection Hmain as <- _.
Defined.

Lemma demo_tool_reads_only cmd w : (Demo.run_tool cmd w).2 = fs w.
Proof.
  unfold Demo.run_tool.
  repeat match goal with |- context [if ?b then _ else _] => destruct b end;
    done.
Qed.

(** X11, witness: the demo tool, which writes nothing. *)
Lemma verifier_reads_only_witness :
  fs (@Verify.main Demo.env [] [] (mkWorld Demo.normalized_tree [])).2
  = Demo.normalized_tree.
Proof.
  exact (@verifier_reads_only Demo.env demo_tool_reads_only [] []
           (mkWorld Demo.normalized_tree [])).
Defined.

(** X12, witness: the flag after a file name. *)
Lemma source_flag_anywhere_witness :
  @Verify.main Demo.env [] ["a.wav"; "--source"] Demo.world
  = @Verify.main Demo.env [] ["--source"; "a.wav"] Demo.world.
Proof.
  apply (@source_flag_anywhere Demo.env [] ["a.wav"] [] Demo.world).
  apply (bool_decide_unpack _). by vm_compute.
Defined.

(** ** The path mapper and the two programs together *)

Section mapper_more.

Implicit Types (s t : string) (p q rel : Path) (n : node)
  (es : list (string * node)).

Lemma lower_app s t : lower (s +:+ t) = lower s +:+ lower t.
Proof.
  induction s as [|a s IH]; [done|].
  rewrite str_app_cons. cbn [lower]. by rewrite IH, str_app_cons.
Qed.

Lemma substring_whole s : substring 0 (String.length s) s = s.
Proof. rewrite <- (str_app_nil_r s) at 2. apply substring_0_app. Qed.

Lemma endswith_app s suf : endswith (s +:+ suf) suf = true.
Proof.
  unfold endswith. rewrite str_length_app.
  replace (String.length s + String.length suf - String.length suf)%nat
    with (String.length s) by lia.
  rewrite substring_skip, substring_whole, String.eqb_refl, andb_true_r.
  apply Nat.leb_le. lia.
Qed.

Lemma mp3_name_is_audio s : has_audio_extension (s +:+ ".mp3") = true.
Proof.
  unfold has_audio_extension, audio_extensions. cbn [existsb].
  rewrite lower_app. change (lower ".mp3") with ".mp3".
  by rewrite endswith_app.
Qed.

Lemma audio_name_nonempty s : has_audio_extension s = true → s ≠ "".
Proof. by intros Hs ->. Qed.

Lemma fs_lookup_app p q n :
  fs_lookup (p ++ q) n =
    match fs_lookup p n with
    | Some m => fs_lookup q m
    | None => None
    end.
Proof.
  revert n. induction p as [|c p IH]; intros n; [done|].
  cbn [app fs_lookup]. destruct n as [|es]; [done|].
  by destruct (lookup_entry c es).
Qed.

Lemma lookup_entry_elem_of nm n es :
  lookup_entry nm es = Some n → (nm, n) ∈ es.
Proof.
  induction es as [|[k m] es IH]; [done|]. cbn.
  destruct (String.eqb_spec k nm) as [->|].
  - intros [= ->]. left.
  - intros Hl. right. auto.
Qed.

Lemma fs_lookup_reaches p n m : fs_lookup p n = Some m → reaches n p m.
Proof.
  revert n. induction p as [|c p IH]; intros n.
  - intros [= ->]. constructor.
  - cbn. destruct n as [|es]; [done|].
    destruct (lookup_entry c es) as [child|] eqn:El; [|done].
    intros Hp. apply (reaches_down es c child); [|by apply IH].
    by apply lookup_entry_elem_of.
Qed.

Lemma create_output_path_Ret source_file source_dir output_dir w p w' :
  Normalize.create_output_path source_file source_dir output_dir w
  = (Ret p, w') →
  ∃ rel,
    source_file = source_dir ++ rel
    ∧ name rel ≠ ""
    ∧ p = output_dir ++ parent rel ++ [stem (name rel) +:+ ".mp3"]
    ∧ mkdir_p (parent p) (fs w) = Some (fs w')
    ∧ calls w' = calls w.
Proof.
  unfold Normalize.create_output_path.
  intros (rel & w1 & Hrel & Hrun)%bind_Ret.
  destruct (relative_to source_file source_dir) as [rel'|] eqn:Er; [|done].
  apply ret_Ret in Hrel as [-> <-]. apply relative_to_Some in Er as ->.
  apply bind_Ret in Hrun as (renamed & w2 & Hren & Hrun).
  unfold with_suffix in Hren.
  destruct (String.eqb_spec (name rel) "") as [|Hname]; [done|].
  apply ret_Ret in Hren as [<- <-]. rewrite with_suffix_name_stem in Hrun.
  apply bind_Ret in Hrun as (u & w3 & Hmk & [<- <-]%ret_Ret).
  unfold mkdir_parents in Hmk.
  destruct (mkdir_p _ (fs w)) as [tree'|] eqn:Em; [|done].
  injection Hmk as _ <-. by exists rel.
Qed.

Lemma elem_of_find_audio_files p top tree :
  p ∈ Verify.find_audio_files top tree ↔ In p (audio_of (os_walk top tree)).
Proof.
  unfold Verify.find_audio_files. by rewrite sorted_elem_of, list_elem_of_In.
Qed.

Lemma file_in_audio_walk top dir_rel file tree :
  has_audio_extension file = true →
  fs_lookup (top ++ dir_rel ++ [file]) tree = Some File →
  In (top ++ dir_rel ++ [file]) (audio_of (os_walk top tree)).
Proof.
  intros Haudio Hfile. rewrite fs_lookup_app in Hfile. unfold os_walk.
  destruct (fs_lookup top tree) as [dir|]; [|done].
  apply audio_of_walk_node. exists dir_rel, file. split_and!; [done| |done].
  by apply fs_lookup_reaches.
Qed.

(** X13: every path the mapper returns has an audio extension, so a file
    written at that path is among the files the verifier discovers under
    the output root. *)
Theorem mapped_output_is_discovered source_file source_dir output_dir w p w' :
  Normalize.create_output_path source_file source_dir output_dir w
  = (Ret p, w') →
  has_audio_extension (name p) = true
  ∧ ∀ tree, fs_lookup p tree = Some File →
            p ∈ Verify.find_audio_files output_dir tree.
Proof.
  intros (rel & _ & _ & -> & _)%create_output_path_Ret.
  rewrite app_assoc, name_snoc. split; [apply mp3_name_is_audio|].
  intros tree Hfile. apply elem_of_find_audio_files.
  rewrite <- app_assoc in Hfile |- *.
  apply file_in_audio_walk; [apply mp3_name_is_audio|done].
Qed.

Lemma str_name_plain nm :
  contains slash nm = false → nm ≠ "" → nm ≠ "." → str_name nm = nm.
Proof.
  intros Hslash Hne Hdot. unfold str_name.
  rewrite (split_single _ _ Hslash). cbn [List.filter].
  destruct (String.eqb_spec nm ""); [done|].
  by destruct (String.eqb_spec nm ".").
Qed.

(** X14: the verifier's single-file search, asked for a source file by its
    name, succeeds when the output the mapper gives that name exists: in the
    directory that holds the file named after the stem of the request with
    [.mp3], the search takes the first entry of the listing that matches,
    and returns it.  That entry is the output itself, or a file with the
    requested name, or one whose path ends with the request. *)
Theorem single_file_finds_output (nm : string) (top dir_rel : Path)
    (tree : node) :
  contains slash nm = false → nm ≠ "" → nm ≠ "." →
  fs_lookup (top ++ dir_rel ++ [stem nm +:+ ".mp3"]) tree = Some File →
  ∃ dirs files file,
    In (top ++ dir_rel, dirs, files) (os_walk top tree)
    ∧ In (stem nm +:+ ".mp3") files
    ∧ List.find (Verify.normalized_match nm (top ++ dir_rel)) files = Some file
    ∧ joinpath (top ++ dir_rel) file
      ∈ Verify.search_single_file (Verify.normalized_match nm) top tree
    ∧ (file = stem nm +:+ ".mp3"
       ∨ file = basename nm
       ∨ endswith (path_str (joinpath (top ++ dir_rel) file)) nm = true).
Proof.
  intros Hslash Hne Hdot Hfile.
  apply file_in_audio_walk in Hfile; [|apply mp3_name_is_audio].
  unfold audio_of in Hfile.
  apply in_flat_map in Hfile as ([[root dirs] files] & Hwalk & Hp).
  apply in_map_iff in Hp as (file & Hjoin & [Hin _]%filter_In).
  unfold joinpath in Hjoin. rewrite app_assoc in Hjoin.
  apply app_inj_tail in Hjoin as [-> ->].
  destruct (List.find (Verify.normalized_match nm (top ++ dir_rel)) files)
    as [found|] eqn:Efind.
  - exists dirs, files, found. split_and!; [done..| |].
    + unfold Verify.search_single_file. apply list_elem_of_omap.
      exists (top ++ dir_rel, dirs, files).
      split; [by apply list_elem_of_In|]. by rewrite Efind.
    + apply find_some in Efind as [_ Hmatch].
      unfold Verify.normalized_match in Hmatch.
      rewrite (str_name_plain _ Hslash Hne Hdot) in Hmatch.
      apply orb_true_iff in Hmatch as [Hmatch|Hmatch]; [|auto].
      apply orb_true_iff in Hmatch as [Hmatch|Hmatch];
        apply String.eqb_eq in Hmatch; auto.
  - apply (find_none _ _ Efind) in Hin.
    unfold Verify.normalized_match in Hin.
    by rewrite (str_name_plain _ Hslash Hne Hdot), String.eqb_refl in Hin.
Qed.

(** X15: on a file that discovery returned for the source root, the
    mapper never raises a [ValueError]: it returns a path, or raises the
    [OSError] of a file in the way of a directory and leaves the world as it
    was. *)
Theorem discovered_files_map (source_dir output_dir : Path) (tree : node)
    (f : Path) (w : World) :
  f ∈ Normalize.find_audio_files source_dir tree →
  (∃ p w',
     Normalize.create_output_path f source_dir output_dir w = (Ret p, w'))
  ∨ Normalize.create_output_path f source_dir output_dir w
    = (Raise OSError, w).
Proof.
  intros Hf. apply (elem_of_find_audio_files f source_dir tree) in Hf.
  unfold os_walk in Hf. destruct (fs_lookup source_dir tree) as [dir|]; [|done].
  apply audio_of_walk_node in Hf as (rel & file & -> & _ & Haudio).
  assert (Hname : name (rel ++ [file]) ≠ "").
  { rewrite name_snoc. by apply audio_name_nonempty. }
  rewrite (create_output_path_eq _ _ _ _ Hname).
  destruct (mkdir_p _ _); [left|right]; by eauto.
Qed.

Lemma lookup_set_entry_ne k nm n es :
  k ≠ nm → lookup_entry k (set_entry nm n es) = lookup_entry k es.
Proof.
  intros Hne. induction es as [|[k' m] es IH]; cbn.
  - by destruct (String.eqb_spec nm k).
  - destruct (String.eqb_spec k' nm) as [->|]; cbn.
    + by destruct (String.eqb_spec nm k).
    + by destruct (String.eqb_spec k' k).
Qed.

Lemma lookup_entry_app k es es' :
  lookup_entry k (es ++ es') =
    match lookup_entry k es with
    | Some n => Some n
    | None => lookup_entry k es'
    end.
Proof.
  induction es as [|[k' m] es IH]; [done|]. cbn.
  by destruct (String.eqb k' k).
Qed.

Lemma fresh_dirs_lookup p q m :
  fs_lookup q (fresh_dirs p) = Some m → q `prefix_of` p ∧ is_dir m = true.
Proof.
  revert q. induction p as [|c p IH]; intros [|k q]; cbn.
  - by intros [= <-].
  - done.
  - intros [= <-]. split; [apply prefix_nil|done].
  - destruct (String.eqb_spec c k) as [->|]; [|done].
    intros [Hpre Hdir]%IH. split; [by apply prefix_cons|done].
Qed.

(** What existed before [mkdir] exists after it, with its kind. *)
Lemma mkdir_p_preserves p n n' q m :
  mkdir_p p n = Some n' →
  fs_lookup q n = Some m →
  ∃ m', fs_lookup q n' = Some m' ∧ is_dir m' = is_dir m.
Proof.
  revert n n' q m. induction p as [|c p IH]; intros [|es] n' q m; cbn;
    try done.
  - intros [= <-] Hq. by exists m.
  - destruct (lookup_entry c es) as [child|] eqn:El.
    + destruct (mkdir_p p child) as [child'|] eqn:Em; [|done].
      intros [= <-]. destruct q as [|k q]; cbn.
      * intros [= <-]. by eexists.
      * destruct (String.eqb_spec k c) as [->|Hne].
        -- rewrite El, lookup_set_entry. by apply IH.
        -- rewrite lookup_set_entry_ne by done.
           destruct (lookup_entry k es); [|done]. intros Hq. by exists m.
    + intros [= <-]. destruct q as [|k q]; cbn.
      * intros [= <-]. by eexists.
      * rewrite lookup_entry_app.
        destruct (lookup_entry k es); [|done]. intros Hq. by exists m.
Qed.

(** What exists after [mkdir] existed before it, or is a directory on the
    way to the one asked for. *)
Lemma mkdir_p_new p n n' q m' :
  mkdir_p p n = Some n' →
  fs_lookup q n' = Some m' →
  fs_lookup q n ≠ None ∨ (q `prefix_of` p ∧ is_dir m' = true).
Proof.
  revert n n' q m'. induction p as [|c p IH]; intros [|es] n' q m'; cbn;
    try done.
  - intros [= <-] ->. by left.
  - destruct (lookup_entry c es) as [child|] eqn:El.
    + destruct (mkdir_p p child) as [child'|] eqn:Em; [|done].
      intros [= <-]. destruct q as [|k q]; cbn; [by left|].
      destruct (String.eqb_spec k c) as [->|Hne].
      * rewrite El, lookup_set_entry. intros Hq.
        destruct (IH _ _ _ _ Em Hq) as [?|[Hpre Hdir]]; [by left|right].
        split; [by apply prefix_cons|done].
      * rewrite lookup_set_entry_ne by done.
        destruct (lookup_entry k es); [|done]. intros ->. by left.
    + intros [= <-]. destruct q as [|k q]; cbn; [by left|].
      rewrite lookup_entry_app.
      destruct (lookup_entry k es) as [x|] eqn:Ek.
      * intros ->. by left.
      * cbn. destruct (String.eqb_spec c k) as [->|]; [|done].
        intros [Hpre Hdir]%fresh_dirs_lookup. right.
        split; [by apply prefix_cons|done].
Qed.

Lemma mkdir_p_is_dir p n n' :
  mkdir_p p n = Some n' → ∃ es, fs_lookup p n' = Some (Dir es).
Proof.
  revert n n'. induction p as [|c p IH]; intros [|es] n'; cbn; try done.
  - intros [= <-]. by eexists.
  - destruct (lookup_entry c es) as [child|] eqn:El.
    + destruct (mkdir_p p child) as [child'|] eqn:Em; [|done].
      intros [= <-]. cbn. rewrite lookup_set_entry. by apply (IH child).
    + intros [= <-]. cbn. rewrite lookup_entry_app, El. cbn.
      rewrite String.eqb_refl. apply (IH (fresh_dirs p)), mkdir_p_fresh.
Qed.

(** X16: what a call of the mapper changes.  It runs no command; after it
    the parent of the returned path is a directory; every path that existed
    still exists, a file as a file and a directory as a directory; every
    path that is new is a directory on the way to that parent; and whether
    the output file itself exists is as before. *)
Theorem create_output_path_frame source_file source_dir output_dir w p w' :
  Normalize.create_output_path source_file source_dir output_dir w
  = (Ret p, w') →
  calls w' = calls w
  ∧ (∃ es, fs_lookup (parent p) (fs w') = Some (Dir es))
  ∧ (∀ q m, fs_lookup q (fs w) = Some m →
            ∃ m', fs_lookup q (fs w') = Some m' ∧ is_dir m' = is_dir m)
  ∧ (∀ q m', fs_lookup q (fs w') = Some m' →
             fs_lookup q (fs w) ≠ None
             ∨ (q `prefix_of` parent p ∧ is_dir m' = true))
  ∧ path_exists p (fs w') = path_exists p (fs w).
Proof.
  intros (rel & _ & _ & Hp & Hmk & Hcalls)%create_output_path_Ret.
  split_and!; [done|by apply (mkdir_p_is_dir _ _ _ Hmk)| | |].
  - intros q m. apply (mkdir_p_preserves _ _ _ _ _ Hmk).
  - intros q m'. apply (mkdir_p_new _ _ _ _ _ Hmk).
  - unfold path_exists. apply bool_decide_ext. split; intros Hex.
    + destruct (fs_lookup p (fs w')) as [m'|] eqn:E; [|done].
      destruct (mkdir_p_new _ _ _ _ _ Hmk E) as [?|[Hpre _]]; [done|].
      apply prefix_length in Hpre. rewrite Hp in Hpre.
      rewrite app_assoc, parent_snoc, !length_app in Hpre. cbn in Hpre. lia.
    + destruct (fs_lookup p (fs w)) as [m|] eqn:E; [|done].
      by destruct (mkdir_p_preserves _ _ _ _ _ Hmk E) as (m' & -> & _).
Qed.

End mapper_more.

(** X13, witness: the output of a source of the demo tree, in a tree that
    holds it. *)
Lemma mapped_output_is_discovered_witness :
  ["normalized"; "sub"; "b.mp3"]
  ∈ Verify.find_audio_files ["normalized"] Cases.output_tree.
Proof.
  destruct (Normalize.create_output_path ["mp3s"; "sub"; "b.flac"] ["mp3s"]
              ["normalized"] Demo.world) as [[p| |] w'] eqn:Hcreate;
    [|by vm_compute in Hcreate..].
  destruct (mapped_output_is_discovered _ _ _ _ _ _ Hcreate) as [_ Hfound].
  vm_compute in Hcreate. injection Hcreate as <- _.
  exact (Hfound Cases.output_tree eq_refl).
Defined.

(** X14, witness: asked for the name of a source beside whose output a
    file of that name lies, the search returns that file, the first match
    of the directory. *)
Lemma single_file_finds_output_witness :
  (∃ dirs files file,
    In (["normalized"] ++ [], dirs, files)
      (os_walk ["normalized"] Cases.twin_tree)
    ∧ In (stem "b.flac" +:+ ".mp3") files
    ∧ List.find (Verify.normalized_match "b.flac" (["normalized"] ++ [])) files
      = Some file
    ∧ joinpath (["normalized"] ++ []) file
      ∈ Verify.search_single_file (Verify.normalized_match "b.flac")
          ["normalized"] Cases.twin_tree
    ∧ (file = stem "b.flac" +:+ ".mp3"
       ∨ file = basename "b.flac"
       ∨ endswith (path_str (joinpath (["normalized"] ++ []) file)) "b.flac"
         = true))
  ∧ Verify.search_single_file (Verify.normalized_match "b.flac")
      ["normalized"] Cases.twin_tree
    = [["normalized"; "b.flac"]].
Proof.
  split; [|vm_compute; reflexivity].
  apply (single_file_finds_output "b.flac" ["normalized"] []
           Cases.twin_tree); [reflexivity|discriminate..|reflexivity].
Defined.

(** X15, witness: a source of the demo tree. *)
Lemma discovered_files_map_witness :
  (∃ p w',
     Normalize.create_output_path ["mp3s"; "sub"; "b.flac"] ["mp3s"]
       ["normalized"] Demo.world = (Ret p, w'))
  ∨ Normalize.create_output_path ["mp3s"; "sub"; "b.flac"] ["mp3s"]
      ["normalized"] Demo.world = (Raise OSError, Demo.world).
Proof.
  apply (discovered_files_map ["mp3s"] ["normalized"] Demo.tree).
  apply (bool_decide_unpack _). by vm_compute.
Defined.

(** X16, witness: the same call. *)
Lemma create_output_path_frame_witness :
  ∃ p w',
    Normalize.create_output_path ["mp3s"; "sub"; "b.flac"] ["mp3s"]
      ["normalized"] Demo.world = (Ret p, w')
    ∧ calls w' = []
    ∧ path_exists p (fs w') = false.
Proof.
  destruct (Normalize.create_output_path ["mp3s"; "sub"; "b.flac"] ["mp3s"]
              ["normalized"] Demo.world) as [[p| |] w'] eqn:Hcreate;
    [|by vm_compute in Hcreate..].
  exists p, w'.
  destruct (create_output_path_frame _ _ _ _ _ _ Hcreate)
    as (Hcalls & _ & _ & _ & Hexists).
  split_and!; [done|exact Hcalls|].
  rewrite Hexists. vm_compute in Hcreate. by injection Hcreate as <- _.
Defined.

(** ** The progress bar, missing keys, and the order of the walk *)

Section progress.

Lemma filled_length_bounds current total :
  0 <= current <= total → 0 < total →
  0 <= Progress.filled_length current total <= 30
  ∧ (Progress.filled_length current total = 30 ↔ current = total).
Proof.
  intros Hc Ht. unfold Progress.filled_length, Progress.progress_bar_length.
  assert (Hlo : 0 <= 30 * current / total) by (apply Z.div_pos; lia).
  assert (Hhi : 30 * current / total <= 30).
  { apply Z.div_le_upper_bound; lia. }
  split; [lia|]. split.
  - intros Heq.
    pose proof (Z.mul_div_le (30 * current) total Ht) as Hle.
    rewrite Heq in Hle. lia.
  - intros ->. apply Z.div_mul. lia.
Qed.

(** X17: while a run is under way (the current file is one of the total)
    the bar has thirty cells, the filled ones first; the number of filled
    cells lies between 0 and 30, reaches 30 exactly at the last file, and
    never goes down from one file to the next. *)
Theorem progress_bar_cells current total :
  0 <= current <= total → 0 < total →
  let filled := Progress.filled_length current total in
  0 <= filled <= 30
  ∧ (filled = 30 ↔ current = total)
  ∧ (∃ full empty : nat,
       Progress.bar current total
       = Progress.repeat_nat "█" full +:+ Progress.repeat_nat "░" empty
       ∧ Z.of_nat full = filled
       ∧ (full + empty = 30)%nat)
  ∧ (∀ later, current <= later →
              filled <= Progress.filled_length later total).
Proof.
  intros Hc Ht filled.
  destruct (filled_length_bounds current total Hc Ht) as [Hb Hfull].
  fold filled in Hb, Hfull. split_and!; [lia..|done| |].
  - exists (Z.to_nat filled), (Z.to_nat (30 - filled)).
    split_and!; [done|lia..].
  - intros later Hlater. unfold filled, Progress.filled_length.
    apply Z.div_le_mono; [done|]. unfold Progress.progress_bar_length. lia.
Qed.

End progress.

Section defaults.

Context `{Env}.

(** X18: a measurement record that lacks a key is not a failed analysis:
    the verifier fills in -99.  Without the integrated loudness the file is
    reported as a violation, with the loudness issue first; without the
    true peak no peak issue can be raised, and the file is compliant as soon
    as its loudness is within the tolerance. *)
Theorem missing_measurements_default
    (data : gmap string (pyval Other)) (record : Verify.Loudness) :
  float_of_str "-99" = Some (-99)%float →
  Verify.loudness_of_dict data = Some record →
  (data !! "input_i" = None →
   Verify.lufs record = (-99)%float
   ∧ (Verify.check_file_compliance (Some record)).1 = false
   ∧ head (Verify.check_file_compliance (Some record)).2
     = Some (Verify.lufs_issue (-99)%float))
  ∧ (data !! "input_tp" = None →
     Verify.peak record = (-99)%float
     ∧ (∀ issue, issue ∈ (Verify.check_file_compliance (Some record)).2 →
                 issue = Verify.lufs_issue (Verify.lufs record))
     ∧ ((Verify.check_file_compliance (Some record)).1 = true
        ↔ PrimFloat.ltb Verify.LUFS_TOLERANCE
            (PrimFloat.abs
               (PrimFloat.sub (Verify.lufs record) Verify.TARGET_LUFS))
          = false)).
Proof.
  intros Hdefault Hrecord. unfold Verify.loudness_of_dict, dict_get in Hrecord.
  split; intros Hmissing; rewrite Hmissing in Hrecord; cbn [py_float] in Hrecord;
    rewrite Hdefault in Hrecord.
  - destruct (py_float _) as [p|]; [|done].
    destruct (py_float _) as [r|]; [|done].
    injection Hrecord as <-. cbn [Verify.lufs Verify.peak].
    unfold Verify.check_file_compliance. cbn [Verify.lufs Verify.peak].
    replace (PrimFloat.ltb Verify.LUFS_TOLERANCE _) with true
      by (by vm_compute).
    split; [done|]. by destruct (PrimFloat.ltb Verify.TARGET_TP p).
  - destruct (py_float _) as [l|]; [|done].
    destruct (py_float _) as [r|]; [|done].
    injection Hrecord as <-. cbn [Verify.lufs Verify.peak].
    unfold Verify.check_file_compliance. cbn [Verify.lufs Verify.peak].
    replace (PrimFloat.ltb Verify.TARGET_TP _) with false by (by vm_compute).
    split; [done|].
    destruct (PrimFloat.ltb Verify.LUFS_TOLERANCE _); cbn.
    + split; [|done]. by intros issue ->%list_elem_of_singleton.
    + split; [|done]. by intros issue ?%elem_of_nil.
Qed.

End defaults.

Section order.

(** X19: which files the two scripts list, and in which order, depends
    only on which audio files the walk yields, not on the order in which the
    directories and their entries come up. *)
Theorem find_audio_files_any_walk_order (top : Path) (tree tree' : node) :
  audio_of (os_walk top tree) ≡ₚ audio_of (os_walk top tree') →
  Normalize.find_audio_files top tree = Normalize.find_audio_files top tree'
  ∧ Verify.find_audio_files top tree = Verify.find_audio_files top tree'.
Proof.
  intros Hperm.
  assert (Hsorted : sorted (audio_of (os_walk top tree))
                    = sorted (audio_of (os_walk top tree'))).
  { apply (StronglySorted_unique path_le);
      [apply StronglySorted_merge_sort; apply _..|].
    unfold sorted. by rewrite !merge_sort_Permutation. }
  done.
Qed.

End order.

Lemma extract_json_block_shape_witness :
  (∃ body, Demo.json_text "-16.0" "-1.5"
           = String lbrace (body +:+ String rbrace ""))
  ∧ ∃ before after,
      Demo.banner "mp3s/a.wav" +:+ Demo.json_text "-16.0" "-1.5"
      +:+ Demo.trailer
      = before +:+ Demo.json_text "-16.0" "-1.5" +:+ after.
Proof.
  destruct (extract_json_block_shape
              (Demo.banner "mp3s/a.wav" +:+ Demo.json_text "-16.0" "-1.5"
               +:+ Demo.trailer)
              (Demo.json_text "-16.0" "-1.5"))
    as [[Hempty|Hbody] Hpart].
  - vm_compute. reflexivity.
  - vm_compute in Hempty. discriminate Hempty.
  - split; assumption.
Defined.

Lemma extract_json_block_first_block_witness :
  extract_json_block
    ((Demo.banner "mp3s/a.wav" +:+ Demo.json_text "-16.0" "-1.5")
     +:+ nl +:+ Cases.nested_object)
  = Some (Demo.json_text "-16.0" "-1.5").
Proof.
  apply extract_json_block_first_block.
  - vm_compute. reflexivity.
  - intros Hempty. vm_compute in Hempty. discriminate Hempty.
Defined.

Lemma progress_bar_cells_witness :
  0 <= Progress.filled_length 1 3 <= 30
  ∧ (Progress.filled_length 1 3 = 30 ↔ 1 = 3).
Proof.
  destruct (progress_bar_cells 1 3) as (Hbounds & Hfull & _).
  - lia.
  - lia.
  - split; assumption.
Defined.

Lemma missing_measurements_default_witness :
  Verify.lufs (Verify.mkLoudness (-99) (-1.5) 3)%float = (-99)%float
  ∧ (@Verify.check_file_compliance Demo.env
       (Some (Verify.mkLoudness (-99) (-1.5) 3)%float)).1 = false
  ∧ head (@Verify.check_file_compliance Demo.env
            (Some (Verify.mkLoudness (-99) (-1.5) 3)%float)).2
    = Some (@Verify.lufs_issue Demo.env (-99)%float).
Proof.
  apply (@missing_measurements_default Demo.env
           {[ "input_tp" := PStr "-1.5"; "input_lra" := PStr "3.0" ]}).
  - reflexivity.
  - vm_compute. reflexivity.
  - vm_compute. reflexivity.
Defined.

Lemma find_audio_files_any_walk_order_witness :
  Normalize.find_audio_files ["mp3s"] Demo.tree
  = Normalize.find_audio_files ["mp3s"] Cases.shuffled_tree
  ∧ Verify.find_audio_files ["mp3s"] Demo.tree
    = Verify.find_audio_files ["mp3s"] Cases.shuffled_tree.
Proof.
  apply find_audio_files_any_walk_order.
  replace (audio_of (os_walk ["mp3s"] Demo.tree))
    with [["mp3s"; "a.wav"]; ["mp3s"; "sub"; "b.flac"];
          ["mp3s"; "sub"; "broken.mp3"]] by (vm_compute; reflexivity).
  replace (audio_of (os_walk ["mp3s"] Cases.shuffled_tree))
    with [["mp3s"; "a.wav"]; ["mp3s"; "sub"; "broken.mp3"];
          ["mp3s"; "sub"; "b.flac"]] by (vm_compute; reflexivity).
  apply perm_skip, perm_swap.
Defined.

(** ** The exit status of a run *)

Section exit_status.

Context `{Env}.

Lemma mkdir_p_fresh_any p q : mkdir_p q (fresh_dirs p) ≠ None.
Proof.
  revert q. induction p as [|c p IH]; intros [|k q]; cbn; try done.
  destruct (String.eqb_spec c k) as [->|]; [|done].
  pose proof (IH q). by destruct (mkdir_p q (fresh_dirs p)).
Qed.

(** Making one directory never puts a file in the way of another. *)
Lemma mkdir_p_keeps_clear p q n n' :
  mkdir_p p n = Some n' → mkdir_p q n ≠ None → mkdir_p q n' ≠ None.
Proof.
  revert q n n'. induction p as [|c p IH]; intros q [|es] n'; cbn; try done.
  - by intros [= <-].
  - destruct (lookup_entry c es) as [child|] eqn:El.
    + destruct (mkdir_p p child) as [child'|] eqn:Em; [|done].
      intros [= <-]. destruct q as [|k q]; cbn; [done|].
      destruct (String.eqb_spec k c) as [->|Hne].
      * rewrite El, lookup_set_entry. intros Hq.
        pose proof (IH q child child' Em) as Hclear.
        destruct (mkdir_p q child); [|done].
        by destruct (mkdir_p q child'); [|destruct Hclear].
      * rewrite lookup_set_entry_ne by done.
        destruct (lookup_entry k es) as [other|]; [|done].
        by destruct (mkdir_p q other).
    + intros [= <-]. destruct q as [|k q]; cbn; [done|].
      rewrite lookup_entry_app. intros Hq.
      destruct (lookup_entry k es) as [other|] eqn:Ek.
      * by destruct (mkdir_p q other).
      * cbn. destruct (String.eqb_spec c k) as [->|]; [|done].
        pose proof (mkdir_p_fresh_any p q).
        by destruct (mkdir_p q (fresh_dirs p)).
Qed.

Lemma unblocked_create source_dir output_dir f w :
  unblocked source_dir output_dir (fs w) f = true →
  ∃ p n,
    Normalize.create_output_path f source_dir output_dir w
    = (Ret p, mkWorld n (calls w))
    ∧ output_path f source_dir output_dir = Some p
    ∧ mkdir_p (parent p) (fs w) = Some n.
Proof.
  unfold unblocked, output_path, Normalize.create_output_path.
  unfold bind, of_option, mkdir_parents.
  destruct (relative_to f source_dir) as [rel|]; [|done]. cbn [ret].
  destruct (with_suffix rel ".mp3") as [renamed|]; [|done]. cbn [ret].
  intros Hclear%bool_decide_eq_true.
  destruct (mkdir_p _ (fs w)) as [n|] eqn:Em; [|done].
  by exists (output_dir ++ renamed), n.
Qed.

Lemma analyze_loudness_Ret input_file w :
  ∃ r,
    Normalize.analyze_loudness input_file w
    = (Ret r,
       mkWorld (run_tool (Normalize.analyze_cmd input_file) w).2
         (calls w ++ [Normalize.analyze_cmd input_file]))
    ∧ (∀ d, r = Some d → ∃ s, json_loads s = Some d).
Proof.
  unfold Normalize.analyze_loudness, try_except, bind, subprocess_run.
  destruct (run_tool _ w) as [[rc err|] n]; cbn.
  - unfold Normalize.parse_loudness.
    destruct (extract_json_block err) as [json_str|]; [|by eexists].
    unfold bind, of_option.
    destruct (json_loads json_str) as [d|] eqn:Ed; cbn.
    + eexists. split; [done|]. intros ? [= <-]. by exists json_str.
    + by eexists.
  - by eexists.
Qed.

Section normal_run.

Variables (source_dir output_dir : Path) (files : list Path).

Hypothesis tool_starts :
  ∀ f p data w,
    f ∈ files →
    output_path f source_dir output_dir = Some p →
    (run_tool (Normalize.normalize_cmd f p data) w).1 ≠ RunRaised.
Hypothesis loudness_converts :
  ∀ s d,
    json_loads s = Some d →
    py_float (dict_get d "input_i" (PStr "-99")) ≠ None.
Hypothesis tool_keeps_clear :
  ∀ f g cmd w,
    f ∈ files → g ∈ files →
    command_of source_dir output_dir g cmd →
    unblocked source_dir output_dir (fs w) f = true →
    unblocked source_dir output_dir (run_tool cmd w).2 f = true.

(** Under the three conditions a turn of the loop ends, whatever the tool
    returns, and leaves every output directory clear. *)
Lemma process_file_completes c f w :
  f ∈ files → all_clear source_dir output_dir files w →
  ∃ c' w',
    Normalize.process_file source_dir output_dir c f w = (Ret c', w')
    ∧ all_clear source_dir output_dir files w'.
Proof.
  intros Hf Hclear.
  destruct (unblocked_create _ _ _ _ (Hclear f Hf))
    as (p & n & Hcreate & Hp & Hmk).
  assert (Hclear1 : all_clear source_dir output_dir files
                      (mkWorld n (calls w))).
  { intros g Hg. specialize (Hclear g Hg). revert Hclear.
    unfold unblocked. destruct (output_path g _ _) as [q|]; [|done].
    rewrite !bool_decide_eq_true. cbn [fs].
    by apply mkdir_p_keeps_clear with (parent p). }
  unfold Normalize.process_file, bind at 1. unfold of_option at 1.
  assert (Hrel : relative_to f source_dir ≠ None).
  { revert Hp. unfold output_path. by destruct (relative_to f source_dir). }
  destruct (relative_to f source_dir) as [rel|]; [|done]. cbn [ret].
  unfold bind at 1. rewrite Hcreate.
  unfold bind at 1, exists_.
  destruct (path_exists p _); [by eexists _, _|].
  destruct (analyze_loudness_Ret f (mkWorld n (calls w))) as (r & Hr & Hjson).
  unfold bind at 1. rewrite Hr.
  set (w2 := mkWorld _ _).
  assert (Hclear2 : all_clear source_dir output_dir files w2).
  { intros g Hg. apply (tool_keeps_clear g f); [done..|by left|].
    by apply Hclear1. }
  assert (Hfloat : ∃ x,
            (if Normalize.truthy r
             then of_option
                    (py_float (dict_get (default ∅ r) "input_i" (PStr "-99")))
                    ValueError
             else ret 0%float) w2 = (Ret x, w2)).
  { destruct r as [d|]; cbn [Normalize.truthy]; [|by eexists].
    destruct (bool_decide (d ≠ ∅)); [|by eexists].
    destruct (Hjson d eq_refl) as [s Hs]. cbn [default].
    pose proof (loudness_converts s d Hs).
    destruct (py_float _) as [x|]; [|done]. by exists x. }
  destruct Hfloat as [x Hx]. unfold bind at 1. rewrite Hx.
  unfold bind at 1, Normalize.normalize_audio, try_except, bind,
    subprocess_run_checked, bind, subprocess_run.
  pose proof (tool_starts f p r w2 Hf Hp) as Hstart.
  destruct (run_tool (Normalize.normalize_cmd f p r) w2)
    as [[rc err|] n3] eqn:Et; [|done].
  cbn [fst snd].
  assert (Hclear3 : all_clear source_dir output_dir files
                      (mkWorld n3
                         (calls w2 ++ [Normalize.normalize_cmd f p r]))).
  { intros g Hg. cbn [fs].
    replace n3 with (run_tool (Normalize.normalize_cmd f p r) w2).2
      by (by rewrite Et).
    apply (tool_keeps_clear g f); [done..|right; by eauto|].
    by apply Hclear2. }
  destruct (rc =? 0); cbn; by eexists _, _.
Qed.

Lemma process_files_complete rest c w :
  rest ⊆ files → all_clear source_dir output_dir files w →
  ∃ c' w',
    Normalize.process_files source_dir output_dir rest c w = (Ret c', w').
Proof.
  revert c w. induction rest as [|f rest IH]; intros c w Hsub Hclear.
  - by eexists _, _.
  - cbn [Normalize.process_files].
    destruct (process_file_completes c f w) as (c1 & w1 & Hone & Hclear1);
      [set_solver|done|].
    unfold bind. rewrite Hone. apply IH; [set_solver|done].
Qed.

End normal_run.

(** An exception that escapes the loop: when the tool cannot be started,
    the first pass returns [None] and the second pass raises. *)
Lemma process_file_tool_missing source_dir output_dir c f w p w1 :
  Normalize.create_output_path f source_dir output_dir w = (Ret p, w1) →
  path_exists p (fs w1) = false →
  (∀ cmd w', (run_tool cmd w').1 = RunRaised) →
  ∃ w', Normalize.process_file source_dir output_dir c f w
        = (Raise OSError, w').
Proof.
  intros Hcreate Hmissing Hraised.
  unfold Normalize.process_file, bind at 1. unfold of_option at 1.
  assert (Hrel : relative_to f source_dir ≠ None).
  { revert Hcreate. unfold Normalize.create_output_path, bind, of_option.
    by destruct (relative_to f source_dir). }
  destruct (relative_to f source_dir) as [rel|]; [|done]. cbn [ret].
  unfold bind at 1. rewrite Hcreate.
  unfold bind at 1, exists_. rewrite Hmissing.
  unfold bind at 1, Normalize.analyze_loudness, try_except, bind at 1,
    subprocess_run.
  pose proof (Hraised (Normalize.analyze_cmd f) w1) as Hfirst.
  destruct (run_tool (Normalize.analyze_cmd f) w1) as [o1 n1].
  cbn in Hfirst. subst o1. cbn.
  unfold bind at 1, Normalize.normalize_audio, try_except, bind,
    subprocess_run_checked, bind, subprocess_run.
  set (w2 := mkWorld _ _).
  pose proof (Hraised (Normalize.normalize_cmd f p None) w2) as Hsecond.
  destruct (run_tool (Normalize.normalize_cmd f p None) w2) as [o2 n2].
  cbn in Hsecond. subst o2. cbn. by eexists.
Qed.


End exit_status.

(** The input of a normalization command, as the demo tool reads it. *)
Lemma demo_normalize_input f out data :
  List.nth 2 (@Normalize.normalize_cmd Demo.env f out data) "" = path_str f.
Proof. unfold Normalize.normalize_cmd. by destruct (negb _). Qed.

